(** * Reliable data transfer over UDP: packet codec, sliding-window sender,
      reassembling receiver.

    Shallow embedding of [packet.py] and [rdt.py].  Python integers are
    unbounded and are modelled by [Z]; [bytes] objects are lists of
    [Byte.byte]; exceptions are an explicit [Raise] outcome; dictionaries are
    finite maps (the receive buffer) or insertion-ordered association lists
    (the send buffer, whose iteration order is observable). *)

From Stdlib Require Import ZArith List Bool Lia String.
From Stdlib.Strings Require Byte Ascii.
From stdpp Require Import base option list gmap.

Local Open Scope Z_scope.

(* ===================================================================== *)
(** ** Python values, exceptions *)
(* ===================================================================== *)

Abbreviation byte := Byte.byte.
Abbreviation bytes := (list Byte.byte).

(** The exceptions that the modelled code can raise or catch. *)
Inductive exn : Type :=
| TypeError        (* wrong number or kind of arguments *)
| AttributeError   (* attribute missing on the object *)
| StructError      (* struct.error: value does not fit the format *)
| ValueError
| SocketTimeout    (* socket.timeout *)
| OSError.         (* any other socket failure *)

Inductive result (A : Type) : Type :=
| Ok (a : A)
| Raise (e : exn).
Arguments Ok {A} a.
Arguments Raise {A} e.

Definition rbind {A B} (r : result A) (k : A -> result B) : result B :=
  match r with
  | Ok a => k a
  | Raise e => Raise e
  end.

Notation "'let!' x ':=' r 'in' k" := (rbind r (fun x => k))
  (at level 10, x name, r at level 100, k at level 200, only parsing).

(* ===================================================================== *)
(** ** Bytes and big-endian integers *)
(* ===================================================================== *)

Definition Z_of_byte (b : byte) : Z := Z.of_N (Byte.to_N b).

Definition byte_of_Z (z : Z) : byte :=
  match Byte.of_N (Z.to_N (z mod 256)) with
  | Some b => b
  | None => Byte.x00
  end.

(** [v.to_bytes(n, 'big')] for a value already known to fit. *)
Fixpoint be_bytes (n : nat) (v : Z) : bytes :=
  match n with
  | O => []
  | S k => byte_of_Z (v / 256 ^ Z.of_nat k) :: be_bytes k v
  end.

(** [int.from_bytes(bs, byteorder='big')]. *)
Definition be_value (bs : bytes) : Z :=
  fold_left (fun acc b => acc * 256 + Z_of_byte b) bs 0.

(** Little-endian counterparts, used by MD5 only. *)
Fixpoint le_bytes (n : nat) (v : Z) : bytes :=
  match n with
  | O => []
  | S k => byte_of_Z v :: le_bytes k (v / 256)
  end.

Fixpoint le_value (bs : bytes) : Z :=
  match bs with
  | [] => 0
  | b :: r => Z_of_byte b + 256 * le_value r
  end.

(** One field of [struct.pack]: an unsigned big-endian integer of [w] bytes;
    a value outside [0, 256^w) raises [struct.error]. *)
Definition pack_uint (w : nat) (v : Z) : result bytes :=
  if (0 <=? v) && (v <? 256 ^ Z.of_nat w)
  then Ok (be_bytes w v)
  else Raise StructError.

(** Cut a byte string into consecutive groups of [n] bytes, the last one
    possibly shorter ([fuel] bounds the number of groups; the length of the
    string is always enough when [n] is positive). *)
Fixpoint groups (fuel : nat) (n : nat) (bs : bytes) : list bytes :=
  match fuel, bs with
  | O, _ | _, [] => []
  | S k, _ => take n bs :: groups k n (drop n bs)
  end.

(* ===================================================================== *)
(** ** MD5 (hashlib.md5), RFC 1321 *)
(* ===================================================================== *)

Module MD5.

Definition u32 (x : Z) : Z := x mod 2 ^ 32.

Definition rotl32 (x c : Z) : Z :=
u32 (Z.lor (Z.shiftl x c) (Z.shiftr x (32 - c))).

Definition not32 (x : Z) : Z := Z.lxor x 0xffffffff.

Definition shifts : list Z :=
[7; 12; 17; 22; 7; 12; 17; 22; 7; 12; 17; 22; 7; 12; 17; 22;
 5;  9; 14; 20; 5;  9; 14; 20; 5;  9; 14; 20; 5;  9; 14; 20;
 4; 11; 16; 23; 4; 11; 16; 23; 4; 11; 16; 23; 4; 11; 16; 23;
 6; 10; 15; 21; 6; 10; 15; 21; 6; 10; 15; 21; 6; 10; 15; 21].

Definition sines : list Z :=
[0xd76aa478; 0xe8c7b756; 0x242070db; 0xc1bdceee;
 0xf57c0faf; 0x4787c62a; 0xa8304613; 0xfd469501;
 0x698098d8; 0x8b44f7af; 0xffff5bb1; 0x895cd7be;
 0x6b901122; 0xfd987193; 0xa679438e; 0x49b40821;
 0xf61e2562; 0xc040b340; 0x265e5a51; 0xe9b6c7aa;
 0xd62f105d; 0x02441453; 0xd8a1e681; 0xe7d3fbc8;
 0x21e1cde6; 0xc33707d6; 0xf4d50d87; 0x455a14ed;
 0xa9e3e905; 0xfcefa3f8; 0x676f02d9; 0x8d2a4c8a;
 0xfffa3942; 0x8771f681; 0x6d9d6122; 0xfde5380c;
 0xa4beea44; 0x4bdecfa9; 0xf6bb4b60; 0xbebfbc70;
 0x289b7ec6; 0xeaa127fa; 0xd4ef3085; 0x04881d05;
 0xd9d4d039; 0xe6db99e5; 0x1fa27cf8; 0xc4ac5665;
 0xf4292244; 0x432aff97; 0xab9423a7; 0xfc93a039;
 0x655b59c3; 0x8f0ccc92; 0xffeff47d; 0x85845dd1;
 0x6fa87e4f; 0xfe2ce6e0; 0xa3014314; 0x4e0811a1;
 0xf7537e82; 0xbd3af235; 0x2ad7d2bb; 0xeb86d391].

Record regs := Regs { rA : Z; rB : Z; rC : Z; rD : Z }.

Definition init_regs : regs :=
Regs 0x67452301 0xefcdab89 0x98badcfe 0x10325476.

(** One of the 64 operations on a block [m] of sixteen 32-bit words. *)
Definition round (m : list Z) (r : regs) (i : nat) : regs :=
let '(Regs a b c d) := r in
let iz := Z.of_nat i in
let '(f, g) :=
  if iz <? 16 then (Z.lor (Z.land b c) (Z.land (not32 b) d), iz)
  else if iz <? 32 then
    (Z.lor (Z.land d b) (Z.land (not32 d) c), (5 * iz + 1) mod 16)
  else if iz <? 48 then (Z.lxor b (Z.lxor c d), (3 * iz + 5) mod 16)
  else (Z.lxor c (Z.lor b (not32 d)), (7 * iz) mod 16) in
let f' := u32 (f + a + nth i sines 0 + nth (Z.to_nat g) m 0) in
Regs d (u32 (b + rotl32 f' (nth i shifts 0))) b c.

Definition block_step (r : regs) (m : list Z) : regs :=
let r' := fold_left (round m) (seq 0 64) r in
Regs (u32 (rA r + rA r')) (u32 (rB r + rB r'))
     (u32 (rC r + rC r')) (u32 (rD r + rD r')).

(** Message padding: a 0x80 byte, zeros up to 56 mod 64, then the bit length
  as a 64-bit little-endian integer. *)
Definition pad (msg : bytes) : bytes :=
let len := Z.of_nat (length msg) in
let zeros := Z.to_nat ((55 - len) mod 64) in
msg ++ Byte.x80 :: repeat Byte.x00 zeros ++ le_bytes 8 ((8 * len) mod 2 ^ 64).

Definition words_of_block (blk : bytes) : list Z :=
map le_value (groups 16 4 blk).

Definition digest (msg : bytes) : bytes :=
let p := pad msg in
let blocks := groups (length p) 64 p in
let r := fold_left block_step (map words_of_block blocks) init_regs in
le_bytes 4 (rA r) ++ le_bytes 4 (rB r) ++ le_bytes 4 (rC r) ++ le_bytes 4 (rD r).

End MD5.

Arguments MD5.digest : simpl never.

Definition ascii_bytes (s : string) : bytes :=
  map Ascii.byte_of_ascii (list_ascii_of_string s).


(* ===================================================================== *)
(** ** packet.py: the Packet class *)
(* ===================================================================== *)

Module PacketType.
Definition DATA : Z := 0x01.
Definition ACK : Z := 0x02.
Definition FIN : Z := 0x04.
Definition SYN : Z := 0x08.
End PacketType.

(** A [struct] format in network byte order, as the list of its field widths
    in bytes: ['!IIBHHH'] is [[4;4;1;2;2;2]]. *)
Definition HEADER_FORMAT : list nat := [4; 4; 1; 2; 2; 2]%nat.

Definition calcsize (fmt : list nat) : Z := Z.of_nat (foldr Nat.add 0%nat fmt).

Definition HEADER_SIZE : Z := Eval cbv in calcsize HEADER_FORMAT.

(** [struct.pack(fmt, *vals)]: every value must fit its field and the number
    of values must match the format, otherwise [struct.error]. *)
Fixpoint pack (fmt : list nat) (vals : list Z) : result bytes :=
  match fmt, vals with
  | [], [] => Ok []
  | w :: fmt', v :: vals' =>
      let! b := pack_uint w v in
      let! r := pack fmt' vals' in
      Ok (b ++ r)
  | _, _ => Raise StructError
  end.

Fixpoint unpack_fields (fmt : list nat) (bs : bytes) : list Z :=
  match fmt with
  | [] => []
  | w :: fmt' => be_value (take w bs) :: unpack_fields fmt' (drop w bs)
  end.

(** [struct.unpack(fmt, bs)]: the buffer must have exactly the size of the
    format. *)
Definition unpack (fmt : list nat) (bs : bytes) : result (list Z) :=
  if Z.of_nat (length bs) =? calcsize fmt
  then Ok (unpack_fields fmt bs)
  else Raise StructError.

(** Attributes of a [Packet] object.  Attributes are assigned independently
    in Python, so [data_length] and [checksum] are fields of their own. *)
Record Packet : Type := mkPacket {
  seq_num : Z;
  ack_num : Z;
  flags : Z;
  window_size : Z;
  data : bytes;
  data_length : Z;
  checksum : Z
}.

Definition set_checksum (p : Packet) (c : Z) : Packet :=
  mkPacket (seq_num p) (ack_num p) (flags p) (window_size p) (data p)
           (data_length p) c.

(** The Python values that reach the modelled functions as arguments. *)
Inductive pyval : Type :=
| VNone
| VInt (z : Z)
| VBytes (b : bytes)
| VStr (s : string)
| VPacket (p : Packet)      (* an instance of Packet *)
| VClassPacket.             (* the class object Packet itself *)

(** [str.encode()] (UTF-8); the characters of a [string] are read as code
    points below 256. *)
Definition utf8_char (c : Ascii.ascii) : bytes :=
  let n := Z.of_N (Ascii.N_of_ascii c) in
  if n <? 128 then [byte_of_Z n]
  else [byte_of_Z (Z.lor 0xC0 (Z.shiftr n 6)); byte_of_Z (Z.lor 0x80 (Z.land n 0x3F))].

Definition str_encode (s : string) : bytes :=
  concat (map utf8_char (list_ascii_of_string s)).

(** [data if isinstance(data, bytes) else data.encode()] *)
Definition payload_of (d : pyval) : result bytes :=
  match d with
  | VBytes b => Ok b
  | VStr s => Ok (str_encode s)
  | _ => Raise AttributeError
  end.

(** [Packet.__init__(self, seq_num, ack_num, flags, window_size, data)]. *)
Definition Packet_init (seq_num ack_num flags window_size : Z) (data : pyval)
  : result Packet :=
  let! d := payload_of data in
  Ok (mkPacket seq_num ack_num flags window_size d (Z.of_nat (length d)) 0).

(** [Packet.calculate_checksum]: the first two bytes of the MD5 digest of the
    five-field header followed by the payload. *)
Definition calculate_checksum (self : Packet) : result Z :=
  let! header := pack [4; 4; 1; 2; 2]%nat
                   [seq_num self; ack_num self; flags self;
                    window_size self; data_length self] in
  let content := header ++ data self in
  let hash_obj := MD5.digest content in
  Ok (be_value (take 2 hash_obj)).

(** [Packet.serialize]: stores the computed checksum in the object, then
    returns header and payload.  The second component is the object after
    the call. *)
Definition serialize (self : Packet) : result (bytes * Packet) :=
  let! c := calculate_checksum self in
  let self := set_checksum self c in
  let! header := pack HEADER_FORMAT
                   [seq_num self; ack_num self; flags self;
                    window_size self; data_length self; checksum self] in
  Ok (header ++ data self, self).

(** [len(x)] *)
Definition py_len (v : pyval) : result Z :=
  match v with
  | VBytes b => Ok (Z.of_nat (length b))
  | VStr s => Ok (Z.of_nat (String.length s))
  | _ => Raise TypeError
  end.

(** [x.HEADER_SIZE]: found on the class, also through an instance. *)
Definition get_HEADER_SIZE (v : pyval) : result Z :=
  match v with
  | VClassPacket | VPacket _ => Ok HEADER_SIZE
  | _ => Raise AttributeError
  end.

(** [Packet.deserialize(self, cls, raw_data)], the body of the method with
    its three parameters bound. *)
Definition deserialize (self cls raw_data : pyval) : result pyval :=
  let! n := py_len raw_data in
  let! hs := get_HEADER_SIZE cls in
  if n <? hs then Ok VNone
  else
    match raw_data with
    | VBytes raw =>
        match unpack HEADER_FORMAT (take (Z.to_nat hs) raw) with
        | Raise _ => Ok VNone                       (* except struct.error *)
        | Ok [seq_num; ack_num; flags; window_size; data_length; checksum] =>
            let data := take (Z.to_nat data_length) (drop (Z.to_nat hs) raw) in
            match cls with
            | VClassPacket =>
                let! packet := Packet_init seq_num ack_num flags window_size
                                 (VBytes data) in
                Ok (VPacket (set_checksum packet checksum))
            | _ => Raise TypeError                  (* cls is not callable *)
            end
        | Ok _ => Raise ValueError                  (* unpacking mismatch *)
        end
    | _ => Raise TypeError       (* struct.unpack needs a bytes-like object *)
    end.

(** Python binds the positional arguments of a call to the parameters from
    left to right.  [deserialize] is a plain function of three parameters
    without defaults: looked up on the class it is not bound to an instance,
    and a call with another number of arguments raises [TypeError]. *)
Definition Packet_deserialize (args : list pyval) : result pyval :=
  match args with
  | [self; cls; raw_data] => deserialize self cls raw_data
  | _ => Raise TypeError
  end.

Definition is_corrupt (self : Packet) : result bool :=
  let! calculated_checksum := calculate_checksum self in
  Ok (negb (calculated_checksum =? checksum self)).

Definition py_bool (z : Z) : bool := negb (z =? 0).

Definition is_ack (self : Packet) : bool := py_bool (Z.land (flags self) PacketType.ACK).
Definition is_data (self : Packet) : bool := py_bool (Z.land (flags self) PacketType.DATA).
Definition is_fin (self : Packet) : bool := py_bool (Z.land (flags self) PacketType.FIN).
Definition is_syn (self : Packet) : bool := py_bool (Z.land (flags self) PacketType.SYN).

(** [create_data_packet(type, seq_num, data, window_size=5)].  The header
    fields of the record are integers; Python would store any object in
    [seq_num] and fail only when the packet is packed, so a non-integer
    [seq_num] is reported here, after the check of [data] that [__init__]
    performs. *)
Definition create_data_packet (type_ seq_num data : pyval) (window_size : Z)
  : result Packet :=
  match seq_num with
  | VInt s => Packet_init s 0 PacketType.DATA window_size data
  | _ => let! _ := payload_of data in Raise TypeError
  end.

(** [create_ack_packet(ack_num, window_size=5)] *)
Definition create_ack_packet (ack_num window_size : Z) : result Packet :=
  Packet_init 0 ack_num PacketType.ACK window_size (VBytes []).

(* ===================================================================== *)
(** ** The environment: clock and datagram socket *)
(* ===================================================================== *)

(** Readings of [time.time()], in an integral unit of the clock. *)
Abbreviation time := Z.
Abbreviation addr := (string * Z)%type.

(** The outside world as the code sees it: the k-th call of [time.time()]
    returns [time_of k], the k-th call of [sock.sendto] fails when
    [sendto_fails k], and [wire] lists the datagrams handed to the socket,
    oldest first. *)
Record World : Type := mkWorld {
  time_of : nat -> time;
  clock_reads : nat;
  sendto_fails : nat -> bool;
  sendto_calls : nat;
  wire : list (bytes * addr)
}.

Definition time_time (w : World) : time * World :=
  (time_of w (clock_reads w),
   mkWorld (time_of w) (S (clock_reads w)) (sendto_fails w) (sendto_calls w) (wire w)).

Definition sock_sendto (w : World) (b : bytes) (a : addr) : result unit * World :=
  let w' := fun wr =>
    mkWorld (time_of w) (clock_reads w) (sendto_fails w) (S (sendto_calls w)) wr in
  if sendto_fails w (sendto_calls w)
  then (Raise OSError, w' (wire w))
  else (Ok tt, w' (wire w ++ [(b, a)])).

(** What [sock.recvfrom] can do in one call. *)
Inductive recv_outcome : Type :=
| RecvTimeout                              (* socket.timeout *)
| RecvFail                                 (* another socket error *)
| RecvDatagram (payload : bytes) (from : addr).

(** What one pass through a worker's loop body did with its datagram. *)
Inductive verdict : Type :=
| Continued            (* except socket.timeout: continue *)
| Caught (e : exn)     (* except Exception: the error is printed and dropped *)
| Skipped              (* the [if] guarding the handler was false *)
| Handled.             (* the handler ran *)

(** [range(a, b)] *)
Definition py_range (a b : Z) : list Z := seqZ a (b - a).

(* ===================================================================== *)
(** ** A Python dict with integer keys, in insertion order *)
(* ===================================================================== *)

Module PyDict.
Section Dict.
Context {V : Type}.

Definition t := list (Z * V).

Fixpoint get (d : t) (k : Z) : option V :=
  match d with
  | [] => None
  | (k', v) :: r => if k' =? k then Some v else get r k
  end.

(** [k in d] *)
Definition mem (d : t) (k : Z) : bool :=
  match get d k with Some _ => true | None => false end.

(** [d[k] = v]: an existing key keeps its position. *)
Fixpoint set (d : t) (k : Z) (v : V) : t :=
  match d with
  | [] => [(k, v)]
  | (k', v') :: r => if k' =? k then (k, v) :: r else (k', v') :: set r k v
  end.

(** [del d[k]] *)
Definition del (d : t) (k : Z) : t :=
  List.filter (fun '(k', _) => negb (k' =? k)) d.

(** [list(d.items())] *)
Definition items (d : t) : list (Z * V) := d.
End Dict.
Arguments t V : clear implicits.
End PyDict.

(* ===================================================================== *)
(** ** rdt.py: RDTSender *)
(* ===================================================================== *)

Record RDTSender : Type := mkSender {
  dest_addr : addr;
  s_window_size : Z;
  s_timeout : time;
  max_packet_size : Z;
  base : Z;                       (* oldest unacknowledged packet *)
  next_seq_num : Z;               (* next sequence number to send *)
  send_buffer : PyDict.t (Packet * time);
  s_running : bool;
  packets_sent : Z;
  retransmissions : Z;
  acks_received_count : Z
}.

(** [RDTSender.__init__] *)
Definition RDTSender_init (dest : addr) (window_size : Z) (timeout : time)
    (max_packet_size : Z) : RDTSender :=
  mkSender dest window_size timeout max_packet_size 0 0 [] false 0 0 0.

Definition sender_start (self : RDTSender) : RDTSender :=
  mkSender (dest_addr self) (s_window_size self) (s_timeout self)
    (max_packet_size self) (base self) (next_seq_num self) (send_buffer self)
    true (packets_sent self) (retransmissions self) (acks_received_count self).

Definition with_window (self : RDTSender) (b n : Z)
    (buf : PyDict.t (Packet * time)) : RDTSender :=
  mkSender (dest_addr self) (s_window_size self) (s_timeout self)
    (max_packet_size self) b n buf (s_running self)
    (packets_sent self) (retransmissions self) (acks_received_count self).

Definition with_counters (self : RDTSender) (sent retrans acks : Z) : RDTSender :=
  mkSender (dest_addr self) (s_window_size self) (s_timeout self)
    (max_packet_size self) (base self) (next_seq_num self) (send_buffer self)
    (s_running self) sent retrans acks.

(** [RDTSender._send_packet].  [serialize] writes the checksum into the
    packet object, which the caller goes on using: the packet after the call
    is returned as well.  Any exception is printed and dropped. *)
Definition _send_packet (self : RDTSender) (w : World) (packet : Packet)
  : RDTSender * World * Packet :=
  match serialize packet with
  | Raise _ => (self, w, packet)
  | Ok (wire_bytes, packet') =>
      match sock_sendto w wire_bytes (dest_addr self) with
      | (Raise _, w') => (self, w', packet')
      | (Ok _, w') =>
          (with_counters self (packets_sent self + 1) (retransmissions self)
             (acks_received_count self), w', packet')
      end
  end.

(** The loop [for seq in range(base, ack_num + 1): if seq in buf: del buf[seq]]. *)
Definition drop_acked (buf : PyDict.t (Packet * time)) (lo hi : Z)
  : PyDict.t (Packet * time) :=
  fold_left (fun b seq => if PyDict.mem b seq then PyDict.del b seq else b)
            (py_range lo (hi + 1)) buf.

(** [RDTSender._handle_ack] *)
Definition _handle_ack (self : RDTSender) (ack_packet : Packet) : RDTSender :=
  let ack_num := ack_num ack_packet in
  let self := with_counters self (packets_sent self) (retransmissions self)
                (acks_received_count self + 1) in
  if base self <=? ack_num then
    with_window self (ack_num + 1) (next_seq_num self)
      (drop_acked (send_buffer self) (base self) ack_num)
  else self.

(** One pass through the loop body of [RDTSender._receive_acks]. *)
Definition _receive_acks_iter (self : RDTSender) (ev : recv_outcome)
  : RDTSender * verdict :=
  match ev with
  | RecvTimeout => (self, Continued)
  | RecvFail => (self, Caught OSError)
  | RecvDatagram data _ =>
      match Packet_deserialize [VBytes data] with
      | Raise e => (self, Caught e)
      | Ok (VPacket packet) =>
          if is_ack packet then
            match is_corrupt packet with
            | Raise e => (self, Caught e)
            | Ok true => (self, Skipped)
            | Ok false => (_handle_ack self packet, Handled)
            end
          else (self, Skipped)
      | Ok VNone => (self, Skipped)
      | Ok _ => (self, Caught AttributeError)
      end
  end.

(** The worker loop over what the socket delivers. *)
Definition _receive_acks (self : RDTSender) (evs : list recv_outcome)
  : RDTSender * list verdict :=
  fold_left (fun '(s, vs) ev =>
               let '(s', v) := _receive_acks_iter s ev in (s', vs ++ [v]))
            evs (self, []).

(** One pass of [RDTSender._check_timeouts] after its sleep. *)
Definition retransmit_one (acc : RDTSender * World) (entry : Z * Packet)
  : RDTSender * World :=
  let '(self, w) := acc in
  let '(seq_num, packet) := entry in
  let '(self, w, packet) := _send_packet self w packet in
  let '(now, w) := time_time w in
  let self := with_window self (base self) (next_seq_num self)
                (PyDict.set (send_buffer self) seq_num (packet, now)) in
  (with_counters self (packets_sent self) (retransmissions self + 1)
     (acks_received_count self), w).

Definition timed_out (self : RDTSender) (current_time : time)
  : list (Z * Packet) :=
  omap (fun '(seq_num, (packet, timestamp)) =>
          if s_timeout self <? current_time - timestamp
          then Some (seq_num, packet) else None)
       (PyDict.items (send_buffer self)).

Definition _check_timeouts_iter (self : RDTSender) (w : World)
  : RDTSender * World :=
  let '(current_time, w) := time_time w in
  let packets_to_retransmit := timed_out self current_time in
  fold_left retransmit_one packets_to_retransmit (self, w).

(** *** send_data, one atomic section at a time *)

(** [[data[i:i+mps] for i in range(0, len(data), mps)]]: a zero step is a
    [ValueError], a negative step gives the empty range. *)
Definition split_chunks (mps : Z) (data : bytes) : result (list bytes) :=
  if mps =? 0 then Raise ValueError
  else if mps <? 0 then Ok []
  else Ok (groups (length data) (Z.to_nat mps) data).

(** The call [create_data_packet(self.next_seq_num, chunk, self.window_size)]
    of [send_data]: the three positional arguments bind to the parameters
    [type], [seq_num] and [data]; [window_size] keeps its default 5. *)
Definition send_data_create (self : RDTSender) (chunk : bytes) : result Packet :=
  create_data_packet (VInt (next_seq_num self)) (VBytes chunk)
                     (VInt (s_window_size self)) 5.

(** Where the thread running [send_data] stands.  The lock is released
    between the window test and the update of the buffer, so the other
    workers can run in between. *)
Inductive send_pc : Type :=
| Admit (chunks : list bytes)                (* polling for window space *)
| Emit (chunk : bytes) (rest : list bytes)   (* admitted, packet not yet built *)
| Commit (packet : Packet) (rest : list bytes) (* sent, not yet recorded *)
| Drain                                      (* waiting for all ACKs *)
| Returned
| Failed (e : exn).                          (* an exception left send_data *)

Record sender_sys : Type := mkSys {
  snd_state : RDTSender;
  snd_world : World;
  snd_pc : send_pc
}.

Section SendData.
(** How the packet for a chunk is built; [send_data_create] in the code. *)
Variable make_packet : RDTSender -> bytes -> result Packet.

Definition send_data_step (s : sender_sys) : sender_sys :=
  let self := snd_state s in
  let w := snd_world s in
  match snd_pc s with
  | Admit [] => mkSys self w Drain
  | Admit (chunk :: rest) =>
      if next_seq_num self <? base self + s_window_size self
      then mkSys self w (Emit chunk rest)
      else s                                            (* time.sleep(0.01) *)
  | Emit chunk rest =>
      match make_packet self chunk with
      | Raise e => mkSys self w (Failed e)
      | Ok packet =>
          let '(self, w, packet) := _send_packet self w packet in
          mkSys self w (Commit packet rest)
      end
  | Commit packet rest =>
      let '(now, w) := time_time w in
      let buf := PyDict.set (send_buffer self) (next_seq_num self) (packet, now) in
      mkSys (with_window self (base self) (next_seq_num self + 1) buf) w (Admit rest)
  | Drain =>
      if next_seq_num self <=? base self then mkSys self w Returned
      else s                                            (* time.sleep(0.1) *)
  | Returned => s
  | Failed _ => s
  end.

(** The three threads of a sender interleaved, as the program runs them: a
    step of the thread in [send_data], one pass through the loop body of
    [_receive_acks] on whatever [recvfrom] gives, one pass through the loop
    body of [_check_timeouts]. *)
Inductive program_step : sender_sys -> sender_sys -> Prop :=
| prog_send s :
    program_step s (send_data_step s)
| prog_ack s ev :
    program_step s
      (mkSys (fst (_receive_acks_iter (snd_state s) ev)) (snd_world s) (snd_pc s))
| prog_timer s :
    program_step s
      (mkSys (fst (_check_timeouts_iter (snd_state s) (snd_world s)))
             (Datatypes.snd (_check_timeouts_iter (snd_state s) (snd_world s)))
             (snd_pc s)).

Inductive program_reachable (s0 : sender_sys) : sender_sys -> Prop :=
| prog_init : program_reachable s0 s0
| prog_next s s' :
    program_reachable s0 s ->
    program_step s s' ->
    program_reachable s0 s'.

(** A coarser system than [program_step], with more transitions: in place of
    the pass through [_receive_acks], rule [step_ack] runs the handler
    [_handle_ack] on any intact acknowledgment that [may_ack self p] allows,
    whether or not the worker would have got as far as the handler.  Every
    state the program reaches is reachable here, so what holds of all states
    reachable here holds of the program; a state reachable here need not be
    one the program reaches. *)
Inductive sender_step (may_ack : RDTSender -> Packet -> Prop)
  : sender_sys -> sender_sys -> Prop :=
| step_send s :
    sender_step may_ack s (send_data_step s)
| step_ack s p :
    is_ack p = true ->
    is_corrupt p = Ok false ->
    may_ack (snd_state s) p ->
    sender_step may_ack s
      (mkSys (_handle_ack (snd_state s) p) (snd_world s) (snd_pc s))
| step_timer s :
    sender_step may_ack s
      (mkSys (fst (_check_timeouts_iter (snd_state s) (snd_world s)))
             (Datatypes.snd (_check_timeouts_iter (snd_state s) (snd_world s)))
             (snd_pc s)).

Inductive sender_reachable (may_ack : RDTSender -> Packet -> Prop)
    (s0 : sender_sys) : sender_sys -> Prop :=
| reach_init : sender_reachable may_ack s0 s0
| reach_step s s' :
    sender_reachable may_ack s0 s ->
    sender_step may_ack s s' ->
    sender_reachable may_ack s0 s'.
End SendData.

(** A freshly created sender entering [send_data] with its chunks. *)
Definition sender_boot (dest : addr) (window_size : Z) (timeout : time)
    (mps : Z) (w : World) (chunks : list bytes) : sender_sys :=
  mkSys (sender_start (RDTSender_init dest window_size timeout mps)) w (Admit chunks).

Definition any_ack : RDTSender -> Packet -> Prop := fun _ _ => True.

(** Acknowledgments of sequence numbers that have been assigned. *)
Definition assigned_ack : RDTSender -> Packet -> Prop :=
  fun self p => ack_num p < next_seq_num self.

(* ===================================================================== *)
(** ** rdt.py: RDTReceiver *)
(* ===================================================================== *)

Record RDTReceiver : Type := mkReceiver {
  r_window_size : Z;
  expected_seq_num : Z;
  receive_buffer : gmap Z Packet;       (* out-of-order packets by seq_num *)
  data_queue : list bytes;              (* queue.Queue, oldest first *)
  r_running : bool;
  packets_received : Z;
  acks_sent : Z;
  duplicates_received : Z
}.

(** [RDTReceiver.__init__] *)
Definition RDTReceiver_init (window_size : Z) : RDTReceiver :=
  mkReceiver window_size 0 ∅ [] false 0 0 0.

(** What the receiver does that can be seen from outside: a payload put on
    the delivery queue (with the sequence number it was delivered under), and
    an acknowledgment accepted by the socket. *)
Inductive event : Type :=
| Delivered (seq : Z) (payload : bytes)
| AckSent (ack : Z) (dest : addr).

Definition with_reassembly (self : RDTReceiver) (e : Z) (buf : gmap Z Packet)
    (q : list bytes) : RDTReceiver :=
  mkReceiver (r_window_size self) e buf q (r_running self)
    (packets_received self) (acks_sent self) (duplicates_received self).

Definition with_stats (self : RDTReceiver) (rcvd acks dups : Z) : RDTReceiver :=
  mkReceiver (r_window_size self) (expected_seq_num self) (receive_buffer self)
    (data_queue self) (r_running self) rcvd acks dups.

(** [RDTReceiver._send_ack] *)
Definition _send_ack (self : RDTReceiver) (w : World) (ack_num : Z) (dest : addr)
  : RDTReceiver * World * list event :=
  let ack_num := if ack_num <? 0 then 0 else ack_num in
  match create_ack_packet ack_num (r_window_size self) with
  | Raise _ => (self, w, [])
  | Ok ack_packet =>
      match serialize ack_packet with
      | Raise _ => (self, w, [])
      | Ok (wire_bytes, _) =>
          match sock_sendto w wire_bytes dest with
          | (Raise _, w') => (self, w', [])
          | (Ok _, w') =>
              (with_stats self (packets_received self) (acks_sent self + 1)
                 (duplicates_received self), w', [AckSent ack_num dest])
          end
      end
  end.

(** The loop [while self.expected_seq_num in self.receive_buffer: ...].  Each
    pass deletes one entry, so as many passes as the buffer has entries are
    enough. *)
Fixpoint deliver_in_order (fuel : nat) (self : RDTReceiver)
  : RDTReceiver * list event :=
  match fuel with
  | O => (self, [])
  | S k =>
      match receive_buffer self !! expected_seq_num self with
      | None => (self, [])
      | Some pkt =>
          let self' :=
            with_reassembly self (expected_seq_num self + 1)
              (delete (expected_seq_num self) (receive_buffer self))
              (data_queue self ++ [data pkt]) in
          let '(self'', evs) := deliver_in_order k self' in
          (self'', Delivered (expected_seq_num self) (data pkt) :: evs)
      end
  end.

(** [RDTReceiver._handle_data_packet] *)
Definition _handle_data_packet (self : RDTReceiver) (w : World)
    (packet : Packet) (sender_addr : addr)
  : result (RDTReceiver * World * list event) :=
  let! corrupt := is_corrupt packet in
  if corrupt then Ok (self, w, [])
  else
    let seq_num := seq_num packet in
    let self := with_stats self (packets_received self + 1) (acks_sent self)
                  (duplicates_received self) in
    if seq_num <? expected_seq_num self then
      let self := with_stats self (packets_received self) (acks_sent self)
                    (duplicates_received self + 1) in
      let ack_num := Z.max 0 (expected_seq_num self - 1) in
      Ok (_send_ack self w ack_num sender_addr)
    else
      let self := with_reassembly self (expected_seq_num self)
                    (<[seq_num := packet]> (receive_buffer self))
                    (data_queue self) in
      let '(self, delivered) :=
        deliver_in_order (size (receive_buffer self)) self in
      let ack_num := Z.max 0 (expected_seq_num self - 1) in
      let '(self, w, acked) := _send_ack self w ack_num sender_addr in
      Ok (self, w, delivered ++ acked).

(** One pass through the loop body of [RDTReceiver._receive_packets]. *)
Definition _receive_packets_iter (self : RDTReceiver) (w : World)
    (ev : recv_outcome) : RDTReceiver * World * list event * verdict :=
  match ev with
  | RecvTimeout => (self, w, [], Continued)
  | RecvFail => (self, w, [], Caught OSError)
  | RecvDatagram data sender_addr =>
      match Packet_deserialize [VBytes data] with
      | Raise e => (self, w, [], Caught e)
      | Ok (VPacket packet) =>
          if is_data packet then
            match _handle_data_packet self w packet sender_addr with
            | Raise e => (self, w, [], Caught e)
            | Ok (self', w', evs) => (self', w', evs, Handled)
            end
          else (self, w, [], Skipped)
      | Ok VNone => (self, w, [], Skipped)
      | Ok _ => (self, w, [], Caught AttributeError)
      end
  end.

Definition _receive_packets (self : RDTReceiver) (w : World)
    (evs : list recv_outcome) : RDTReceiver * World * list event * list verdict :=
  fold_left (fun '(s, w, out, vs) ev =>
               let '(s', w', out', v) := _receive_packets_iter s w ev in
               (s', w', out ++ out', vs ++ [v]))
            evs (self, w, [], []).

(** The handler applied to a sequence of data packets, as the worker would
    if it got them parsed; a raised exception drops the packet. *)
Definition handle_all (self : RDTReceiver) (w : World)
    (arrivals : list (Packet * addr)) : RDTReceiver * World * list event :=
  fold_left (fun '(s, w, out) '(p, a) =>
               match _handle_data_packet s w p a with
               | Raise _ => (s, w, out)
               | Ok (s', w', out') => (s', w', out ++ out')
               end)
            arrivals (self, w, []).

(** *** receive_all_data *)

(** What one pass of the loop in [receive_all_data] observes: the clock in
    the loop test, the [packets_received] counter, the result of
    [receive_data()] ([queue.get] with a 0.1 s timeout, [None] when the queue
    stayed empty), the clock when activity is recorded, and the counter
    again.  The datagram worker runs concurrently, so these are inputs. *)
Record poll : Type := mkPoll {
  t_test : time;
  seen_before : Z;
  got : option bytes;
  t_mark : time;
  seen_after : Z
}.

Record rad_state : Type := mkRad {
  all_data : bytes;
  last_activity_time : time;
  consecutive_empty_reads : Z
}.

Inductive rad_exit : Type :=
| LoopTestFailed      (* time.time() - last_activity_time >= timeout *)
| IdleBreak.          (* the break after more than 200 empty reads *)

Inductive rad_result : Type :=
| Looping (st : rad_state)                  (* polls exhausted, still inside *)
| Return_ (out : bytes) (why : rad_exit).

(** [if data:] on the value returned by [receive_data()] *)
Definition truthy (d : option bytes) : option bytes :=
  match d with
  | Some (b :: r) => Some (b :: r)
  | _ => None
  end.

Fixpoint rad_loop (timeout : time) (st : rad_state) (polls : list poll)
  : rad_result :=
  match polls with
  | [] => Looping st
  | p :: rest =>
      if t_test p - last_activity_time st <? timeout then
        match truthy (got p) with
        | Some d =>
            rad_loop timeout (mkRad (all_data st ++ d) (t_mark p) 0) rest
        | None =>
            let st' :=
              if seen_before p <? seen_after p
              then mkRad (all_data st) (t_mark p) 0
              else mkRad (all_data st) (last_activity_time st)
                         (consecutive_empty_reads st + 1) in
            if (200 <? consecutive_empty_reads st')
               && (0 <? Z.of_nat (length (all_data st')))
            then Return_ (all_data st') IdleBreak
            else rad_loop timeout st' rest
        end
      else Return_ (all_data st) LoopTestFailed
  end.

(** [RDTReceiver.receive_all_data(timeout)], given the first clock reading
    and the observations of the successive passes. *)
Definition receive_all_data (timeout : time) (t0 : time) (polls : list poll)
  : rad_result :=
  rad_loop timeout (mkRad [] t0 0) polls.

(* ===================================================================== *)
(** ** Vocabulary of the statements *)
(* ===================================================================== *)

(** [v] fits an unsigned field of [w] bytes. *)
Definition fits (w : nat) (v : Z) : Prop := 0 <= v < 256 ^ Z.of_nat w.

(** The bytes written by a successful [pack]. *)
Fixpoint packed (fmt : list nat) (vals : list Z) : bytes :=
  match fmt, vals with
  | w :: fmt', v :: vals' => be_bytes w v ++ packed fmt' vals'
  | _, _ => []
  end.

(** The [i]-th header field as it stands in a buffer. *)
Definition wire_field (i : nat) (raw : bytes) : Z :=
  nth i (unpack_fields HEADER_FORMAT (take 15 raw)) 0.

Definition wire_data_length (raw : bytes) : Z := wire_field 4 raw.
Definition wire_checksum (raw : bytes) : Z := wire_field 5 raw.

(** The length prefix agrees with the number of bytes after the header. *)
Definition length_consistent (raw : bytes) : Prop :=
  wire_data_length raw = Z.of_nat (length raw) - HEADER_SIZE.

(** The packet object that [deserialize] builds from a buffer of at least
    [HEADER_SIZE] bytes. *)
Definition parsed (raw : bytes) : Packet :=
  let d := take (Z.to_nat (wire_data_length raw)) (drop 15 raw) in
  mkPacket (wire_field 0 raw) (wire_field 1 raw) (wire_field 2 raw)
           (wire_field 3 raw) d (Z.of_nat (length d)) (wire_checksum raw).

(** A packet whose fields fit the widths of the wire format. *)
Record well_formed (p : Packet) : Prop := {
  wf_seq : 0 <= seq_num p < 2 ^ 32;
  wf_ack : 0 <= ack_num p < 2 ^ 32;
  wf_flags : 0 <= flags p < 2 ^ 8;
  wf_window : 0 <= window_size p < 2 ^ 16;
  wf_length : data_length p = Z.of_nat (length (data p));
  wf_length_fits : data_length p < 2 ^ 16
}.

(** Concrete buffers and packets used as test inputs. *)
Definition bytes_of (zs : list Z) : bytes := map byte_of_Z zs.

(** A 15-byte buffer: seq 0, ack 0, flags DATA, window 5, a length prefix of
    5, checksum 0, and no payload at all. *)
Definition short_of_payload : bytes :=
  bytes_of [0; 0; 0; 0;  0; 0; 0; 0;  1;  0; 5;  0; 5;  0; 0].

(** The same header followed by two payload bytes only. *)
Definition truncated_payload : bytes :=
  short_of_payload ++ bytes_of [104; 105].

(** A data packet as [Packet(seq_num, flags=DATA, window_size=5, data)]
    builds it. *)
Definition data_packet (seq : Z) (payload : bytes) : Packet :=
  mkPacket seq 0 PacketType.DATA 5 payload (Z.of_nat (length payload)) 0.

(** Keeping the entries of a send buffer whose key lies outside [lo, hi]. *)
Definition outside (lo hi : Z) {V : Type} (e : Z * V) : bool :=
  negb ((lo <=? e.1) && (e.1 <=? hi)).

(** The thread in [send_data] has passed the window test for a chunk it has
    not yet recorded. *)
Definition admitted (pc : send_pc) : bool :=
  match pc with
  | Emit _ _ | Commit _ _ => true
  | _ => false
  end.

Definition localhost : addr := ("localhost"%string, 9999).

(** A world whose clock advances by one unit per reading and whose socket
    never fails. *)
Definition quiet_world : World :=
  mkWorld (fun k => Z.of_nat k) 0 (fun _ => false) 0 [].

(** The packet object after a call of [serialize], checksum filled in. *)
Definition sealed (p : Packet) : Packet :=
  match serialize p with
  | Ok (_, p') => p'
  | Raise _ => p
  end.

(** The acknowledgment of sequence number 0 as a receiver with window 5
    sends it. *)
Definition ack_zero : Packet :=
  sealed (mkPacket 0 0 PacketType.ACK 5 [] 0 0).

(** A data packet of the transfer whose chunks are [chunks]: sequence number
    [i] carries the [i]-th chunk. *)
Definition from_sender (chunks : list bytes) (p : Packet) : Prop :=
  0 <= seq_num p /\ chunks !! Z.to_nat (seq_num p) = Some (data p).

(** The deliveries among the events, in order. *)
Definition deliveries (evs : list event) : list (Z * bytes) :=
  omap (fun e => match e with
                 | Delivered s c => Some (s, c)
                 | AckSent _ _ => None
                 end) evs.

(** The acknowledgment numbers among the events, in order. *)
Definition acks (evs : list event) : list Z :=
  omap (fun e => match e with
                 | AckSent a _ => Some a
                 | Delivered _ _ => None
                 end) evs.

(** Chunks paired with the sequence numbers 0, 1, 2, ... *)
Definition numbered (cs : list bytes) : list (Z * bytes) :=
  imap (fun i c => (Z.of_nat i, c)) cs.

(** Scenario: "ABCDEFGHIJ" cut into chunks of 4 bytes; the packets arrive in
    the order 2, 1, 0 and packet 0 arrives a second time. *)
Definition scenario_input : bytes := ascii_bytes "ABCDEFGHIJ".

Definition scenario_arrivals : list (Packet * addr) :=
  [(sealed (data_packet 2 (ascii_bytes "IJ")), localhost);
   (sealed (data_packet 1 (ascii_bytes "EFGH")), localhost);
   (sealed (data_packet 0 (ascii_bytes "ABCD")), localhost);
   (sealed (data_packet 0 (ascii_bytes "ABCD")), localhost)].

(** Two packet objects that differ at most in the stored checksum. *)
Definition same_but_checksum (p q : Packet) : Prop :=
  set_checksum p 0 = set_checksum q 0.

(** The datagram a packet object serializes to, if it serializes. *)
Definition wire_bytes_of (p : Packet) : option bytes :=
  match serialize p with
  | Ok (b, _) => Some b
  | Raise _ => None
  end.

(** No key occurs twice, as in any Python dict. *)
Definition dict_wf {V} (d : PyDict.t V) : Prop := NoDup (map fst d).

(** The same keys in the same order, each holding the same packet up to its
    stored checksum. *)
Definition buffer_same (b0 b : PyDict.t (Packet * time)) : Prop :=
  Forall2 (fun e e' => e.1 = e'.1 /\ same_but_checksum e.2.1 e'.2.1) b0 b.

(** The datagrams a scan may add: each goes to the destination and is the
    serialization of a packet of the original buffer. *)
Definition resent_from (b0 : PyDict.t (Packet * time)) (dest : addr)
    (d : bytes * addr) : Prop :=
  d.2 = dest /\
  exists seq pkt ts, In (seq, (pkt, ts)) b0 /\ wire_bytes_of pkt = Some d.1.

(** [n] passes of the timeout scanner. *)
Definition check_timeouts_passes (n : nat) (self : RDTSender) (w : World)
  : RDTSender * World :=
  Nat.iter n (fun '(s, w) => _check_timeouts_iter s w) (self, w).

(** A sender holding two transmitted packets, both overdue. *)
Definition overdue_sender : RDTSender :=
  mkSender localhost 5 2 4 0 2
    [(0, (sealed (data_packet 0 (ascii_bytes "ABCD")), 0));
     (1, (sealed (data_packet 1 (ascii_bytes "EFGH")), 0))]
    true 2 0 0.

Definition slow_world : World :=
  mkWorld (fun k => 10 * Z.of_nat k + 10) 0 (fun _ => false) 0 [].

(** *** Vocabulary for receive_all_data *)

(** A pass saw activity: a non-empty chunk came off the queue, or the
    [packets_received] counter advanced during the pass. *)
Definition active (p : poll) : bool :=
  match truthy (got p) with
  | Some _ => true
  | None => seen_before p <? seen_after p
  end.

(** The bytes the passes appended to [all_data]. *)
Definition dequeued (ps : list poll) : bytes :=
  concat (omap (fun p => truthy (got p)) ps).

(** The clock reading recorded at the last active pass ([t0] if none). *)
Definition last_activity (t0 : time) (ps : list poll) : time :=
  fold_left (fun t p => if active p then t_mark p else t) ps t0.

(** The number of passes without activity since the last active one. *)
Definition idle_run_from (c : Z) (ps : list poll) : Z :=
  fold_left (fun c p => if active p then 0 else c + 1) ps c.

Definition idle_run (ps : list poll) : Z := idle_run_from 0 ps.

(** An idle pass observed at clock reading [t]. *)
Definition idle_at (t : time) : poll := mkPoll t 0 None t 0.

(** A pass that takes [d] off the queue at clock reading [t]. *)
Definition chunk_at (t : time) (d : bytes) : poll := mkPoll t 0 (Some d) t 1.

(** Byte values of a string, for reading digests. *)
Definition hex_of (bs : bytes) : list Z := map Z_of_byte bs.

(** What every step of the sender keeps true, whichever acknowledgments
    arrive. *)
Definition window_inv (W : Z) (s : sender_sys) : Prop :=
  s_window_size (snd_state s) = W /\
  next_seq_num (snd_state s) <= base (snd_state s) + W /\
  (admitted (snd_pc s) = true ->
   next_seq_num (snd_state s) < base (snd_state s) + W).

(** A call of [create_data_packet] whose arguments reach the parameters
    [seq_num], [data] and [window_size]: an instance of [make_packet] under
    which [send_data] gets packets out.  The call in the code is
    [send_data_create]. *)
Definition keyword_create (self : RDTSender) (chunk : bytes) : result Packet :=
  create_data_packet VNone (VInt (next_seq_num self)) (VBytes chunk)
                     (s_window_size self).

(** A sender with window 1 and two chunks to send. *)
Definition narrow_boot : sender_sys :=
  sender_boot localhost 1 2 4 quiet_world [ascii_bytes "ABCD"; ascii_bytes "EFGH"].

(** [narrow_boot] after the first chunk has been admitted, sent and recorded
    under [keyword_create]. *)
Definition first_chunk_out : sender_sys :=
  send_data_step keyword_create
    (send_data_step keyword_create (send_data_step keyword_create narrow_boot)).

(** The datagram of the acknowledgment of sequence number 0. *)
Definition ack_zero_datagram : bytes :=
  match wire_bytes_of ack_zero with Some b => b | None => [] end.

(** [first_chunk_out] after the acknowledgment worker has received
    [ack_zero_datagram] and the timer worker has made a pass. *)
Definition window_full : sender_sys :=
  let s := first_chunk_out in
  let s := mkSys (fst (_receive_acks_iter (snd_state s)
                         (RecvDatagram ack_zero_datagram localhost)))
                 (snd_world s) (snd_pc s) in
  mkSys (fst (_check_timeouts_iter (snd_state s) (snd_world s)))
        (Datatypes.snd (_check_timeouts_iter (snd_state s) (snd_world s)))
        (snd_pc s).

(** What the receiver keeps true while it is fed packets of the transfer:
    it has delivered exactly the first [expected_seq_num] chunks, once each
    and in order, and what it buffers are chunks under their own number. *)
Definition reassembly_inv (chunks : list bytes) (self : RDTReceiver) (log : list (Z * bytes)) : Prop :=
  0 <= expected_seq_num self /\
  (Z.to_nat (expected_seq_num self) <= length chunks)%nat /\
  log = numbered (take (Z.to_nat (expected_seq_num self)) chunks) /\
  data_queue self = take (Z.to_nat (expected_seq_num self)) chunks /\
  (forall k pkt, receive_buffer self !! k = Some pkt ->
                 0 <= k /\ chunks !! Z.to_nat k = Some (data pkt)).


(* ===================================================================== *)
(** ** Further functions of packet.py and rdt.py *)
(* ===================================================================== *)

(** [create_syn_packet(seq_num=0)] *)
Definition create_syn_packet (seq_num : Z) : result Packet :=
  Packet_init seq_num 0 PacketType.SYN 0 (VBytes []).

(** [create_fin_packet(seq_num)] *)
Definition create_fin_packet (seq_num : Z) : result Packet :=
  Packet_init seq_num 0 PacketType.FIN 0 (VBytes []).

(** [create_syn_ack_packet(seq_num, ack_num)] *)
Definition create_syn_ack_packet (seq_num ack_num : Z) : result Packet :=
  Packet_init seq_num ack_num (Z.lor PacketType.SYN PacketType.ACK) 0 (VBytes []).

(** The header fields of a packet lie in the ranges of ['!IIBHH']. *)
Definition header_fits (p : Packet) : Prop :=
  fits 4 (seq_num p) /\ fits 4 (ack_num p) /\ fits 1 (flags p) /\
  fits 2 (window_size p) /\ fits 2 (data_length p).

(** The thread in [send_data] alone, [n] of its steps. *)
Definition send_data_run (n : nat) (s : sender_sys) : sender_sys :=
  Nat.iter n (send_data_step send_data_create) s.

(** [send_data] has not got as far as sending a packet. *)
Definition nothing_sent (w0 : World) (s : sender_sys) : Prop :=
  next_seq_num (snd_state s) = 0 /\
  send_buffer (snd_state s) = [] /\
  packets_sent (snd_state s) = 0 /\
  retransmissions (snd_state s) = 0 /\
  wire (snd_world s) = wire w0 /\
  match snd_pc s with
  | Commit _ _ => False
  | Failed e => e = AttributeError
  | _ => True
  end.

(** [_handle_ack] applied to a run of acknowledgments. *)
Definition handle_acks (self : RDTSender) (ps : list Packet) : RDTSender :=
  fold_left _handle_ack ps self.

(** One more than the highest acknowledgment number, but at least [b]. *)
Definition acked_up_to (b : Z) (ps : list Packet) : Z :=
  fold_right (fun p m => Z.max (ack_num p + 1) m) b ps.

(** Every buffered sequence number is at least [lo]. *)
Definition keys_from (lo : Z) (buf : gmap Z Packet) : Prop :=
  forall k, is_Some (buf !! k) -> lo <= k.

(** A list of numbers that never goes down. *)
Definition nondecreasing (l : list Z) : Prop :=
  forall (i j : nat) a b, (i <= j)%nat -> l !! i = Some a -> l !! j = Some b -> a <= b.

(** The bookkeeping a receiver keeps whatever packets it is given. *)
Definition receiver_inv (self : RDTReceiver) (out : list event) : Prop :=
  0 <= expected_seq_num self /\
  keys_from (expected_seq_num self + 1) (receive_buffer self) /\
  Z.of_nat (length (data_queue self)) = expected_seq_num self /\
  map fst (deliveries out) = seqZ 0 (expected_seq_num self) /\
  data_queue self = map snd (deliveries out) /\
  Forall (fun a => 0 <= a <= Z.max 0 (expected_seq_num self - 1)) (acks out) /\
  nondecreasing (acks out) /\
  acks_sent self = Z.of_nat (length (acks out)) /\
  0 <= duplicates_received self <= packets_received self /\
  expected_seq_num self + Z.of_nat (size (receive_buffer self))
    + duplicates_received self <= packets_received self.

(** Scenario: all three packets arrive, the last one first and twice; before
    them a copy of packet 0 whose payload was altered on the way, and among
    them a packet whose window field does not fit its 16 bits. *)
Definition arrivals_with_damage : list (Packet * addr) :=
  [(set_checksum (data_packet 0 (ascii_bytes "XBCD"))
      (checksum (sealed (data_packet 0 (ascii_bytes "ABCD")))), localhost);
   (sealed (data_packet 2 (ascii_bytes "IJ")), localhost);
   (mkPacket 1 0 PacketType.DATA 70000 (ascii_bytes "EFGH") 4 0, localhost);
   (sealed (data_packet 2 (ascii_bytes "IJ")), localhost);
   (sealed (data_packet 0 (ascii_bytes "ABCD")), localhost);
   (sealed (data_packet 1 (ascii_bytes "EFGH")), localhost)].

(* ===================================================================== *)
(** * Properties *)
(* ===================================================================== *)

(** ** Bytes and integers *)

Lemma Z_of_byte_range (b : byte) : 0 <= Z_of_byte b < 256.
Proof.
  unfold Z_of_byte. pose proof (Byte.to_N_bounded b) as H.
  split; [apply N2Z.is_nonneg|]. lia.
Qed.

Lemma Z_of_byte_of_Z (z : Z) : Z_of_byte (byte_of_Z z) = z mod 256.
Proof.
  unfold Z_of_byte, byte_of_Z.
  assert (Hr : 0 <= z mod 256 < 256) by (apply Z.mod_pos_bound; lia).
  destruct (Byte.of_N (Z.to_N (z mod 256))) as [b|] eqn:E.
  - apply Byte.to_of_N in E. rewrite E. rewrite Z2N.id; lia.
  - apply Byte.of_N_None_iff in E. lia.
Qed.

Lemma byte_of_Z_of_byte (b : byte) : byte_of_Z (Z_of_byte b) = b.
Proof.
  unfold byte_of_Z. rewrite Z.mod_small by apply Z_of_byte_range.
  unfold Z_of_byte. rewrite N2Z.id, Byte.of_to_N. reflexivity.
Qed.

Lemma length_be_bytes n v : length (be_bytes n v) = n.
Proof. induction n; simpl; congruence. Qed.

Lemma be_value_acc (bs : bytes) (acc : Z) :
  fold_left (fun a b => a * 256 + Z_of_byte b) bs acc
  = acc * 256 ^ Z.of_nat (length bs) + be_value bs.
Proof.
  unfold be_value. revert acc.
  induction bs as [|b bs IH]; intros acc.
  - simpl. lia.
  - cbn [fold_left length]. rewrite IH, (IH (0 * 256 + Z_of_byte b)).
    rewrite Nat2Z.inj_succ, Z.pow_succ_r by lia. lia.
Qed.

Lemma be_value_cons b bs :
  be_value (b :: bs) = Z_of_byte b * 256 ^ Z.of_nat (length bs) + be_value bs.
Proof. unfold be_value at 1. cbn [fold_left]. rewrite be_value_acc. lia. Qed.

Lemma be_value_bound (bs : bytes) : 0 <= be_value bs < 256 ^ Z.of_nat (length bs).
Proof.
  induction bs as [|b bs IH].
  - cbn. lia.
  - rewrite be_value_cons. cbn [length].
    rewrite Nat2Z.inj_succ, Z.pow_succ_r by lia.
    pose proof (Z_of_byte_range b). nia.
Qed.

Lemma be_value_be_bytes n v : be_value (be_bytes n v) = v mod 256 ^ Z.of_nat n.
Proof.
  induction n as [|n IH].
  - cbn. rewrite Z.mod_1_r. reflexivity.
  - cbn [be_bytes]. rewrite be_value_cons, length_be_bytes, Z_of_byte_of_Z, IH.
    rewrite Nat2Z.inj_succ, Z.pow_succ_r by lia.
    assert (Hm : 0 < 256 ^ Z.of_nat n) by (apply Z.pow_pos_nonneg; lia).
    rewrite (Z.mul_comm 256), Z.rem_mul_r by lia. lia.
Qed.

Lemma be_value_be_bytes_small n v :
  0 <= v < 256 ^ Z.of_nat n -> be_value (be_bytes n v) = v.
Proof. intros H. rewrite be_value_be_bytes. apply Z.mod_small, H. Qed.

(** ** struct.pack and struct.unpack *)

Lemma pack_uint_ok w v : fits w v -> pack_uint w v = Ok (be_bytes w v).
Proof.
  intros [H1 H2]. unfold pack_uint.
  apply Z.leb_le in H1. apply Z.ltb_lt in H2. rewrite H1, H2. reflexivity.
Qed.

Lemma pack_uint_inv w v b : pack_uint w v = Ok b -> fits w v /\ b = be_bytes w v.
Proof.
  unfold pack_uint, fits.
  destruct (0 <=? v) eqn:E1; destruct (v <? 256 ^ Z.of_nat w) eqn:E2;
    cbn; intros H; try discriminate.
  apply Z.leb_le in E1. apply Z.ltb_lt in E2. inversion H. auto.
Qed.

Lemma pack_ok fmt vals :
  Forall2 fits fmt vals -> pack fmt vals = Ok (packed fmt vals).
Proof.
  induction 1 as [|w v fmt vals Hf _ IH]; [reflexivity|].
  cbn [pack packed]. rewrite (pack_uint_ok _ _ Hf). cbn. rewrite IH. reflexivity.
Qed.

Lemma pack_inv fmt vals b :
  pack fmt vals = Ok b -> Forall2 fits fmt vals /\ b = packed fmt vals.
Proof.
  revert vals b. induction fmt as [|w fmt IH]; intros [|v vals] b H;
    cbn in H; try discriminate.
  - inversion H. split; [constructor | reflexivity].
  - destruct (pack_uint w v) as [b1|] eqn:E1; cbn in H; [|discriminate].
    destruct (pack fmt vals) as [b2|] eqn:E2; cbn in H; [|discriminate].
    inversion H; subst. apply pack_uint_inv in E1 as [Hf ->].
    destruct (IH _ _ E2) as [HF ->]. split; [constructor; assumption | reflexivity].
Qed.

Lemma length_packed fmt vals :
  length fmt = length vals ->
  Z.of_nat (length (packed fmt vals)) = calcsize fmt.
Proof.
  unfold calcsize. revert vals.
  induction fmt as [|w fmt IH]; intros [|v vals] H; try discriminate; [reflexivity|].
  cbn [packed foldr]. rewrite length_app, length_be_bytes.
  rewrite !Nat2Z.inj_add. rewrite IH by (cbn in H; lia). reflexivity.
Qed.

Lemma unpack_fields_packed fmt vals rest :
  Forall2 fits fmt vals ->
  unpack_fields fmt (packed fmt vals ++ rest) = vals.
Proof.
  induction 1 as [|w v fmt vals Hf _ IH]; [reflexivity|].
  cbn [packed unpack_fields]. rewrite <- app_assoc.
  rewrite take_app_length' by (symmetry; apply length_be_bytes).
  rewrite drop_app_length' by (symmetry; apply length_be_bytes).
  rewrite be_value_be_bytes_small by exact Hf. rewrite IH. reflexivity.
Qed.

Lemma length_unpack_fields fmt bs : length (unpack_fields fmt bs) = length fmt.
Proof. revert bs. induction fmt; intros bs; cbn; auto. Qed.

(** ** The packet codec *)

Lemma deserialize_bytes (self : pyval) (raw : bytes) :
  deserialize self VClassPacket (VBytes raw) =
  if Z.of_nat (length raw) <? HEADER_SIZE then Ok VNone
  else Ok (VPacket (parsed raw)).
Proof.
  unfold deserialize. cbn [py_len get_HEADER_SIZE rbind].
  destruct (Z.of_nat (length raw) <? HEADER_SIZE) eqn:E; [reflexivity|].
  apply Z.ltb_ge in E. unfold HEADER_SIZE in *.
  unfold unpack.
  replace (Z.of_nat (length (take (Z.to_nat 15) raw)) =? calcsize HEADER_FORMAT)
    with true.
  2:{ symmetry. apply Z.eqb_eq. rewrite length_take.
      change (calcsize HEADER_FORMAT) with 15. change (Z.to_nat 15) with 15%nat. lia. }
  reflexivity.
Qed.

Lemma checksum_fits (p : Packet) c : calculate_checksum p = Ok c -> fits 2 c.
Proof.
  unfold calculate_checksum. destruct (pack _ _) as [hdr|]; cbn [rbind]; [|discriminate].
  set (d := take 2 (MD5.digest (hdr ++ data p))).
  assert (Hlen : (length d <= 2)%nat) by (subst d; rewrite length_take; lia).
  pose proof (be_value_bound d) as Hb. clearbody d.
  intros [= <-]. unfold fits.
  assert (256 ^ Z.of_nat (length d) <= 256 ^ Z.of_nat 2)
    by (apply Z.pow_le_mono_r; lia).
  lia.
Qed.

Lemma calculate_checksum_set p c :
  calculate_checksum (set_checksum p c) = calculate_checksum p.
Proof. reflexivity. Qed.

Lemma well_formed_fits5 p :
  well_formed p ->
  Forall2 fits [4; 4; 1; 2; 2]%nat
    [seq_num p; ack_num p; flags p; window_size p; data_length p].
Proof.
  intros [H1 H2 H3 H4 H5 H6].
  repeat (apply List.Forall2_cons; [unfold fits; cbn; lia|]).
  constructor.
Qed.

Lemma well_formed_fits6 p c :
  well_formed p -> fits 2 c ->
  Forall2 fits HEADER_FORMAT
    [seq_num p; ack_num p; flags p; window_size p; data_length p; c].
Proof.
  intros [H1 H2 H3 H4 H5 H6] Hc. unfold HEADER_FORMAT.
  repeat (apply List.Forall2_cons; [unfold fits; cbn; lia || exact Hc|]).
  constructor.
Qed.

Lemma calculate_checksum_total p :
  well_formed p -> exists c, calculate_checksum p = Ok c.
Proof.
  intros Hwf. unfold calculate_checksum.
  rewrite (pack_ok _ _ (well_formed_fits5 p Hwf)). cbn. eauto.
Qed.

Lemma serialize_well_formed p c :
  well_formed p -> calculate_checksum p = Ok c ->
  serialize p =
  Ok (packed HEADER_FORMAT
        [seq_num p; ack_num p; flags p; window_size p; data_length p; c]
      ++ data p, set_checksum p c).
Proof.
  intros Hwf Hc. unfold serialize. rewrite Hc. cbn [rbind].
  cbn [seq_num ack_num flags window_size data_length checksum set_checksum data].
  rewrite pack_ok; [reflexivity|].
  apply well_formed_fits6; [assumption | exact (checksum_fits p c Hc)].
Qed.

Lemma parsed_serialized p c :
  well_formed p ->
  fits 2 c ->
  parsed (packed HEADER_FORMAT
            [seq_num p; ack_num p; flags p; window_size p; data_length p; c]
          ++ data p) = set_checksum p c.
Proof.
  intros Hwf Hc.
  pose proof (well_formed_fits6 p c Hwf Hc) as HF6.
  set (hdr := packed HEADER_FORMAT _) in *.
  assert (Hlen : length hdr = 15%nat).
  { pose proof (length_packed HEADER_FORMAT
      [seq_num p; ack_num p; flags p; window_size p; data_length p; c] eq_refl) as H.
    fold hdr in H. change (calcsize HEADER_FORMAT) with 15 in H. lia. }
  assert (Hfields : unpack_fields HEADER_FORMAT (take 15 (hdr ++ data p)) =
            [seq_num p; ack_num p; flags p; window_size p; data_length p; c]).
  { rewrite take_app_length' by exact Hlen.
    rewrite <- (app_nil_r hdr). apply unpack_fields_packed, HF6. }
  unfold parsed, wire_data_length, wire_checksum, wire_field.
  rewrite Hfields. cbn [nth].
  rewrite drop_app_length' by exact Hlen.
  destruct Hwf as [_ _ _ _ Hl _].
  rewrite Hl, Nat2Z.id, firstn_all. unfold set_checksum. f_equal.
  symmetry; exact Hl.
Qed.

Lemma wire_field_app i raw extra :
  (15 <= length raw)%nat -> wire_field i (raw ++ extra) = wire_field i raw.
Proof.
  intros H. unfold wire_field. rewrite take_app_le by exact H. reflexivity.
Qed.

Lemma wire_field_nonneg i raw : 0 <= wire_field i raw.
Proof.
  unfold wire_field.
  set (l := unpack_fields HEADER_FORMAT (take 15 raw)).
  assert (Hall : Forall (fun v => 0 <= v) l).
  { subst l. generalize (take 15 raw) as bs. generalize HEADER_FORMAT as fmt.
    induction fmt as [|w fmt IH]; intros bs; cbn [unpack_fields]; constructor.
    - apply be_value_bound.
    - apply IH. }
  clearbody l. revert i. induction Hall as [|v l Hv _ IH]; intros [|i]; cbn; try lia.
  apply IH.
Qed.

Lemma wire_checksum_bytes raw :
  (15 <= length raw)%nat -> wire_checksum raw = be_value (take 2 (drop 13 raw)).
Proof.
  intros H. unfold wire_checksum, wire_field, HEADER_FORMAT.
  cbn [unpack_fields nth]. rewrite !drop_drop. cbn [Nat.add].
  rewrite !take_drop_commute, take_take. reflexivity.
Qed.

(** C4: a packet whose fields fit the wire widths serializes to the same
    bytes every time, deserializing those bytes gives the packet back with the
    computed checksum stored in it, that packet is not corrupt, and
    [is_corrupt] answers true exactly when the recomputed checksum differs
    from the stored one. *)
Theorem serialize_deserialize_roundtrip (self : pyval) (p : Packet) :
  well_formed p ->
  exists c wire,
    calculate_checksum p = Ok c /\
    serialize p = Ok (wire, set_checksum p c) /\
    serialize (set_checksum p c) = Ok (wire, set_checksum p c) /\
    deserialize self VClassPacket (VBytes wire) = Ok (VPacket (set_checksum p c)) /\
    is_corrupt (set_checksum p c) = Ok false /\
    (forall (q : Packet) (b : bool),
        is_corrupt q = Ok b ->
        exists c', calculate_checksum q = Ok c' /\ (b = true <-> c' <> checksum q)).
Proof.
  intros Hwf. destruct (calculate_checksum_total p Hwf) as [c Hc].
  pose proof (checksum_fits p c Hc) as Hcf.
  exists c. eexists. split; [exact Hc|].
  split; [apply serialize_well_formed; assumption|].
  split.
  { assert (Hwf' : well_formed (set_checksum p c)) by (destruct Hwf; constructor; assumption).
    rewrite (serialize_well_formed (set_checksum p c) c Hwf' Hc). reflexivity. }
  split.
  { rewrite deserialize_bytes.
    set (hdr := packed HEADER_FORMAT _).
    assert (Hlen : Z.of_nat (length hdr) = 15).
    { subst hdr. rewrite length_packed by reflexivity. reflexivity. }
    replace (Z.of_nat (length (hdr ++ data p)) <? HEADER_SIZE) with false.
    2:{ symmetry. apply Z.ltb_ge. rewrite length_app. unfold HEADER_SIZE. lia. }
    subst hdr. rewrite parsed_serialized by assumption. reflexivity. }
  split.
  { unfold is_corrupt. rewrite calculate_checksum_set, Hc. cbn [rbind set_checksum checksum].
    rewrite Z.eqb_refl. reflexivity. }
  intros q b Hq. unfold is_corrupt in Hq.
  destruct (calculate_checksum q) as [c'|] eqn:E; cbn [rbind] in Hq; [|discriminate].
  exists c'. split; [reflexivity|]. injection Hq as <-.
  destruct (Z.eqb_spec c' (checksum q)); cbn; split; intros; congruence.
Qed.

Lemma serialize_deserialize_roundtrip_witness :
  let p := data_packet 7 (ascii_bytes "hello") in
  well_formed p /\
  exists c wire,
    calculate_checksum p = Ok c /\
    serialize p = Ok (wire, set_checksum p c) /\
    serialize (set_checksum p c) = Ok (wire, set_checksum p c) /\
    deserialize VNone VClassPacket (VBytes wire) = Ok (VPacket (set_checksum p c)) /\
    is_corrupt (set_checksum p c) = Ok false /\
    (forall (q : Packet) (b : bool),
        is_corrupt q = Ok b ->
        exists c', calculate_checksum q = Ok c' /\ (b = true <-> c' <> checksum q)).
Proof.
  assert (Hwf : well_formed (data_packet 7 (ascii_bytes "hello")))
    by (constructor; repeat split; vm_compute; solve [reflexivity | discriminate]).
  split; [exact Hwf|].
  exact (serialize_deserialize_roundtrip VNone _ Hwf).
Defined.

(** C3, as stated: [deserialize] does not return none for a buffer of 15
    bytes whose length prefix announces five payload bytes that are not
    there. *)
Lemma deserialize_length_prefix_counterexample :
  ~ (forall raw : bytes,
        deserialize VNone VClassPacket (VBytes raw) = Ok VNone <->
        (Z.of_nat (length raw) < HEADER_SIZE \/ ~ length_consistent raw)).
Proof.
  intros H. specialize (H short_of_payload). destruct H as [_ H].
  assert (Hbad : ~ length_consistent short_of_payload).
  { unfold length_consistent. vm_compute. discriminate. }
  specialize (H (or_intror Hbad)).
  rewrite deserialize_bytes in H.
  change (Z.of_nat (length short_of_payload) <? HEADER_SIZE) with false in H.
  discriminate H.
Qed.

(** C3, amended: [deserialize] returns none exactly when the buffer is
    shorter than 15 bytes; the length prefix is not compared with the
    remainder.  In any other case it returns a packet whose checksum is the
    value carried in bytes 13 and 14 of the buffer. *)
Theorem deserialize_none_iff_short (self : pyval) (raw : bytes) :
  (deserialize self VClassPacket (VBytes raw) = Ok VNone <->
   Z.of_nat (length raw) < HEADER_SIZE) /\
  (Z.of_nat (length raw) < HEADER_SIZE \/
   exists p, deserialize self VClassPacket (VBytes raw) = Ok (VPacket p) /\
             checksum p = be_value (take 2 (drop 13 raw))).
Proof.
  rewrite deserialize_bytes.
  destruct (Z.ltb_spec (Z.of_nat (length raw)) HEADER_SIZE) as [Hlt|Hge].
  - split; [tauto | left; exact Hlt].
  - split.
    + split; [discriminate | lia].
    + right. exists (parsed raw). split; [reflexivity|].
      cbn [parsed checksum]. apply wire_checksum_bytes.
      unfold HEADER_SIZE in Hge. lia.
Qed.

(** C10: for a buffer of at least 15 bytes the packet returned by
    [deserialize] has [data_length] equal to the length of its payload as the
    constructor counted it, the payload being the bytes after the header cut
    to at most the announced length (so it is shorter than announced when the
    buffer runs out), and bytes after the announced length change nothing. *)
Theorem deserialize_data_length (self : pyval) (raw : bytes) :
  HEADER_SIZE <= Z.of_nat (length raw) ->
  exists p,
    deserialize self VClassPacket (VBytes raw) = Ok (VPacket p) /\
    data_length p = Z.of_nat (length (data p)) /\
    data p = take (Z.to_nat (wire_data_length raw)) (drop 15 raw) /\
    data_length p = Z.min (wire_data_length raw) (Z.of_nat (length raw) - HEADER_SIZE) /\
    (forall extra : bytes,
        HEADER_SIZE + wire_data_length raw <= Z.of_nat (length raw) ->
        deserialize self VClassPacket (VBytes (raw ++ extra)) = Ok (VPacket p)).
Proof.
  intros Hge. unfold HEADER_SIZE in *. exists (parsed raw).
  pose proof (wire_field_nonneg 4 raw) as Hnn. fold (wire_data_length raw) in Hnn.
  rewrite !deserialize_bytes.
  replace (Z.of_nat (length raw) <? HEADER_SIZE) with false
    by (symmetry; apply Z.ltb_ge; unfold HEADER_SIZE; lia).
  split; [reflexivity|]. split; [reflexivity|]. split; [reflexivity|].
  split.
  { cbn [parsed data_length]. rewrite length_take, length_drop. lia. }
  intros extra Hfit. rewrite deserialize_bytes.
  replace (Z.of_nat (length (raw ++ extra)) <? HEADER_SIZE) with false
    by (symmetry; apply Z.ltb_ge; rewrite length_app; unfold HEADER_SIZE; lia).
  do 2 f_equal. unfold parsed, wire_data_length, wire_checksum.
  rewrite !wire_field_app by lia.
  rewrite drop_app_le by lia.
  rewrite take_app_le by (rewrite length_drop; fold (wire_data_length raw); lia).
  reflexivity.
Qed.

Lemma deserialize_data_length_witness :
  HEADER_SIZE <= Z.of_nat (length truncated_payload) /\
  wire_data_length truncated_payload = 5 /\
  exists p,
    deserialize VNone VClassPacket (VBytes truncated_payload) = Ok (VPacket p) /\
    data_length p = Z.of_nat (length (data p)) /\
    data p = take (Z.to_nat (wire_data_length truncated_payload))
                  (drop 15 truncated_payload) /\
    data_length p = Z.min (wire_data_length truncated_payload)
                          (Z.of_nat (length truncated_payload) - HEADER_SIZE) /\
    (forall extra : bytes,
        HEADER_SIZE + wire_data_length truncated_payload
          <= Z.of_nat (length truncated_payload) ->
        deserialize VNone VClassPacket (VBytes (truncated_payload ++ extra))
          = Ok (VPacket p)).
Proof.
  split; [vm_compute; discriminate|]. split; [vm_compute; reflexivity|].
  apply (deserialize_data_length VNone truncated_payload).
  vm_compute; discriminate.
Defined.

(** ** The workers never get a packet parsed *)

Lemma _receive_acks_fold self evs acc_v :
  fold_left (fun '(s, vs) ev =>
               let '(s', v) := _receive_acks_iter s ev in (s', vs ++ [v]))
            evs (self, acc_v)
  = (self, acc_v ++ map (fun ev => (_receive_acks_iter self ev).2) evs)
  /\ Forall (fun ev => (_receive_acks_iter self ev).2 <> Handled) evs.
Proof.
  revert acc_v. induction evs as [|ev evs IH]; intros acc_v.
  - cbn. rewrite app_nil_r. split; [reflexivity | constructor].
  - cbn [fold_left map].
    assert (Hev : (_receive_acks_iter self ev).1 = self
                  /\ (_receive_acks_iter self ev).2 <> Handled).
    { destruct ev; cbn; split; try reflexivity; discriminate. }
    destruct (_receive_acks_iter self ev) as [s' v] eqn:E. cbn in Hev.
    destruct Hev as [-> Hv].
    destruct (IH (acc_v ++ [v])) as [-> HF].
    rewrite <- app_assoc. split; [reflexivity|].
    constructor; [rewrite E; exact Hv | exact HF].
Qed.

Lemma _receive_packets_fold self w evs acc_e acc_v :
  fold_left (fun '(s, w, out, vs) ev =>
               let '(s', w', out', v) := _receive_packets_iter s w ev in
               (s', w', out ++ out', vs ++ [v]))
            evs (self, w, acc_e, acc_v)
  = (self, w, acc_e,
     acc_v ++ map (fun ev => (_receive_packets_iter self w ev).2) evs)
  /\ Forall (fun ev => (_receive_packets_iter self w ev).2 <> Handled) evs.
Proof.
  revert acc_v. induction evs as [|ev evs IH]; intros acc_v.
  - cbn. rewrite app_nil_r. split; [reflexivity | constructor].
  - cbn [fold_left map].
    assert (Hev : exists v, _receive_packets_iter self w ev = (self, w, [], v)
                            /\ v <> Handled).
    { destruct ev; cbn; eexists; (split; [reflexivity | discriminate]). }
    destruct Hev as (v & E & Hv). rewrite E. rewrite app_nil_r.
    destruct (IH (acc_v ++ [v])) as [-> HF].
    rewrite <- app_assoc. split; [reflexivity|].
    constructor; [rewrite E; exact Hv | exact HF].
Qed.

(** C1: [Packet.deserialize] is a function of three parameters, so the call
    with the received bytes as its only argument raises [TypeError]; the
    workers' handlers catch it, and whatever the socket delivers, neither
    worker ever runs its packet handler or changes its state. *)
Theorem deserialize_call_raises_TypeError :
  (forall raw : bytes, Packet_deserialize [VBytes raw] = Raise TypeError) /\
  (forall self raw from,
      _receive_acks_iter self (RecvDatagram raw from) = (self, Caught TypeError)) /\
  (forall self w raw from,
      _receive_packets_iter self w (RecvDatagram raw from)
      = (self, w, [], Caught TypeError)) /\
  (forall self evs,
      (_receive_acks self evs).1 = self /\
      Handled ∉ (_receive_acks self evs).2) /\
  (forall self w evs,
      exists vs, _receive_packets self w evs = (self, w, [], vs) /\ Handled ∉ vs).
Proof.
  split; [reflexivity|]. split; [reflexivity|]. split; [reflexivity|]. split.
  - intros self evs. unfold _receive_acks.
    destruct (_receive_acks_fold self evs []) as [-> HF]. cbn [fst snd app].
    split; [reflexivity|]. intros Hin.
    apply list_elem_of_fmap in Hin as (ev & Hv & Hev).
    rewrite Forall_forall in HF. exact (HF ev Hev (eq_sym Hv)).
  - intros self w evs. unfold _receive_packets.
    destruct (_receive_packets_fold self w evs [] []) as [-> HF].
    eexists. split; [reflexivity|]. cbn [app]. intros Hin.
    apply list_elem_of_fmap in Hin as (ev & Hv & Hev).
    rewrite Forall_forall in HF. exact (HF ev Hev (eq_sym Hv)).
Qed.

(** ** The send buffer *)

Lemma del_absent {V} (d : PyDict.t V) k : PyDict.get d k = None -> PyDict.del d k = d.
Proof.
  unfold PyDict.del. induction d as [|[k' v] d IH]; cbn; [reflexivity|].
  destruct (k' =? k); cbn; [discriminate|]. intros H. rewrite IH by exact H. reflexivity.
Qed.

Lemma drop_acked_step (b : PyDict.t (Packet * time)) seq :
  (if PyDict.mem b seq then PyDict.del b seq else b) = PyDict.del b seq.
Proof.
  unfold PyDict.mem. destruct (PyDict.get b seq) eqn:E; [reflexivity|].
  symmetry. apply del_absent, E.
Qed.

Lemma drop_acked_filter (buf : PyDict.t (Packet * time)) lo hi :
  drop_acked buf lo hi = List.filter (outside lo hi) buf.
Proof.
  unfold drop_acked, py_range.
  assert (Hgen : forall (l : list Z) (b : PyDict.t (Packet * time)),
             fold_left (fun b seq => if PyDict.mem b seq then PyDict.del b seq else b) l b
             = List.filter (fun e => negb (existsb (Z.eqb e.1) l)) b).
  { induction l as [|x l IH]; intros b.
    - cbn. induction b as [|e b IHb]; cbn; congruence.
    - cbn [fold_left]. rewrite drop_acked_step, IH. unfold PyDict.del.
      induction b as [|[k v] b IHb]; cbn; [reflexivity|].
      destruct (k =? x) eqn:E; cbn; [exact IHb|].
      destruct (existsb (Z.eqb k) l); cbn; [exact IHb | f_equal; exact IHb]. }
  rewrite Hgen. apply List.filter_ext. intros [k v]. unfold outside. cbn [fst].
  f_equal. apply eq_true_iff_eq. rewrite existsb_exists, andb_true_iff.
  rewrite Z.leb_le, Z.leb_le. split.
  - intros (x & Hin & Hx). apply Z.eqb_eq in Hx. subst x.
    apply list_elem_of_In, elem_of_seqZ in Hin. lia.
  - intros [H1 H2]. exists k. split; [|apply Z.eqb_refl].
    apply list_elem_of_In, elem_of_seqZ. lia.
Qed.

Lemma get_filter_outside (d : PyDict.t (Packet * time)) lo hi k :
  PyDict.get (List.filter (outside lo hi) d) k =
  if (lo <=? k) && (k <=? hi) then None else PyDict.get d k.
Proof.
  induction d as [|[k' v] d IH]; cbn.
  - destruct ((lo <=? k) && (k <=? hi)); reflexivity.
  - unfold outside at 1. cbn [fst].
    destruct (Z.leb_spec lo k'); destruct (Z.leb_spec k' hi); cbn;
      destruct (Z.eqb_spec k' k); subst; try exact IH; try reflexivity;
      destruct (Z.leb_spec lo k); destruct (Z.leb_spec k hi); cbn; try lia;
      try reflexivity;
      rewrite IH;
      try (destruct (Z.leb_spec lo k); destruct (Z.leb_spec k hi); cbn; try lia;
           reflexivity).
Qed.

(** C5: handling an ACK with number [a] always counts it; when [a >= base]
    the entries with a sequence number in [base, a] leave the buffer (the others
    stay, in order) and [base] becomes [a + 1]; when [a < base] the window
    state ([base], [next_seq_num], buffer) is unchanged. *)
Theorem handle_ack_cumulative (self : RDTSender) (p : Packet) :
  let a := ack_num p in
  let self' := _handle_ack self p in
  acks_received_count self' = acks_received_count self + 1 /\
  next_seq_num self' = next_seq_num self /\
  base self' = (if base self <=? a then a + 1 else base self) /\
  send_buffer self' =
    (if base self <=? a
     then List.filter (outside (base self) a) (send_buffer self)
     else send_buffer self) /\
  (forall k,
      PyDict.get (send_buffer self') k =
      if (base self <=? a) && ((base self <=? k) && (k <=? a))
      then None else PyDict.get (send_buffer self) k).
Proof.
  cbn zeta. unfold _handle_ack. cbn [base acks_received_count with_counters].
  destruct (Z.leb_spec (base self) (ack_num p)) as [Hle|Hlt];
    cbn [acks_received_count next_seq_num base send_buffer with_window
         with_counters andb].
  - rewrite drop_acked_filter. repeat (split; [reflexivity|]).
    intros k. apply get_filter_outside.
  - repeat (split; [reflexivity|]). reflexivity.
Qed.

(** ** The sender's window *)

Lemma _send_packet_window self w p :
  let s' := (_send_packet self w p).1.1 in
  base s' = base self /\ next_seq_num s' = next_seq_num self /\
  s_window_size s' = s_window_size self /\ send_buffer s' = send_buffer self /\
  dest_addr s' = dest_addr self /\ s_timeout s' = s_timeout self.
Proof.
  unfold _send_packet. destruct (serialize p) as [[b p']|]; cbn; [|tauto].
  destruct (sock_sendto w b (dest_addr self)) as [[[]|] w']; cbn; tauto.
Qed.

Lemma retransmit_one_window acc entry :
  let s := acc.1 in
  let s' := (retransmit_one acc entry).1 in
  base s' = base s /\ next_seq_num s' = next_seq_num s /\
  s_window_size s' = s_window_size s.
Proof.
  destruct acc as [self w]. destruct entry as [k p]. cbn [fst retransmit_one].
  pose proof (_send_packet_window self w p) as H.
  destruct (_send_packet self w p) as [[s1 w1] p1]. cbn in H.
  destruct (time_time w1) as [now w2]. cbn. tauto.
Qed.

Lemma _check_timeouts_window self w :
  let s' := (_check_timeouts_iter self w).1 in
  base s' = base self /\ next_seq_num s' = next_seq_num self /\
  s_window_size s' = s_window_size self.
Proof.
  unfold _check_timeouts_iter. destruct (time_time w) as [t w1].
  generalize (timed_out self t) as l.
  intros l. change self with (self, w1).1 at 2 4 6.
  generalize (self, w1) as acc. induction l as [|e l IH]; intros acc.
  - cbn. tauto.
  - cbn [fold_left]. specialize (IH (retransmit_one acc e)).
    pose proof (retransmit_one_window acc e) as H. cbn zeta in *.
    destruct IH as (-> & -> & ->). exact H.
Qed.

Lemma _handle_ack_window self p :
  let s' := _handle_ack self p in
  base self <= base s' /\ next_seq_num s' = next_seq_num self /\
  s_window_size s' = s_window_size self /\
  (base s' = base self \/ base s' = ack_num p + 1).
Proof.
  unfold _handle_ack. cbn [base with_counters].
  destruct (Z.leb_spec (base self) (ack_num p)); cbn; lia.
Qed.

Section Window.
Variable make_packet : RDTSender -> bytes -> result Packet.
Variable W : Z.

Lemma send_data_step_inv s :
  window_inv W s -> window_inv W (send_data_step make_packet s).
Proof.
  destruct s as [self w pc]. unfold window_inv, send_data_step.
  cbn [snd_state snd_world snd_pc]. intros (HW & Hle & Hadm).
  destruct pc as [[|c cs]|c cs|p cs| | |e]; cbn [snd_state snd_pc admitted];
    try (repeat split; (assumption || discriminate || lia)).
  - destruct (Z.ltb_spec (next_seq_num self) (base self + s_window_size self));
      cbn [snd_state snd_pc admitted].
    + repeat split; (assumption || lia).
    + repeat split; (assumption || discriminate).
  - specialize (Hadm eq_refl).
    destruct (make_packet self c) as [p|e]; cbn [snd_state snd_pc admitted].
    + pose proof (_send_packet_window self w p) as H.
      destruct (_send_packet self w p) as [[s1 w1] p1]. cbn in H.
      cbn [snd_state snd_pc admitted].
      destruct H as (Hb & Hn & Hw & _). rewrite Hb, Hn, Hw.
      repeat split; (assumption || lia).
    + repeat split; (assumption || discriminate || lia).
  - specialize (Hadm eq_refl). destruct (time_time w) as [now w1].
    cbn. repeat split; (assumption || discriminate || lia).
  - destruct (next_seq_num self <=? base self); cbn;
      repeat split; (assumption || discriminate || lia).
Qed.

Lemma sender_step_inv may_ack s s' :
  sender_step make_packet may_ack s s' -> window_inv W s -> window_inv W s'.
Proof.
  intros Hstep (HW & Hle & Hadm). destruct Hstep as [s|s p _ _ _|s].
  - apply send_data_step_inv. repeat split; assumption.
  - pose proof (_handle_ack_window (snd_state s) p) as (Hb & Hn & Hw & _).
    unfold window_inv. cbn [snd_state snd_pc]. rewrite Hn, Hw.
    split; [assumption|]. split; [lia|]. intros Ha. specialize (Hadm Ha). lia.
  - pose proof (_check_timeouts_window (snd_state s) (snd_world s)) as (Hb & Hn & Hw).
    unfold window_inv. cbn [snd_state snd_pc]. rewrite Hb, Hn, Hw.
    repeat split; assumption.
Qed.

Lemma sender_step_lower s s' :
  sender_step make_packet assigned_ack s s' ->
  base (snd_state s) <= next_seq_num (snd_state s) ->
  base (snd_state s') <= next_seq_num (snd_state s').
Proof.
  intros Hstep Hle. destruct Hstep as [s|s p _ _ Hok|s].
  - destruct s as [self w pc]. unfold send_data_step.
    cbn [snd_state snd_world snd_pc] in *.
    destruct pc as [[|c cs]|c cs|p cs| | |e]; cbn [snd_state]; try assumption.
    + destruct (_ <? _); assumption.
    + destruct (make_packet self c) as [p|e]; cbn [snd_state]; [|assumption].
      pose proof (_send_packet_window self w p) as H.
      destruct (_send_packet self w p) as [[s1 w1] p1]. cbn in H. cbn [snd_state].
      destruct H as (Hb & Hn & _). lia.
    + destruct (time_time w) as [now w1]. cbn. lia.
    + destruct (_ <=? _); assumption.
  - pose proof (_handle_ack_window (snd_state s) p) as (Hb & Hn & Hw & Hcases).
    unfold assigned_ack in Hok. cbn [snd_state]. lia.
  - pose proof (_check_timeouts_window (snd_state s) (snd_world s)) as (Hb & Hn & Hw).
    cbn [snd_state]. lia.
Qed.
End Window.

(** The same bounds in the coarser system [sender_step]: the upper bound
    whatever acknowledgments are handled, the lower bound as long as every
    handled acknowledgment carries a number below [next_seq_num]. *)
Lemma sender_step_bounds
    (make_packet : RDTSender -> bytes -> result Packet)
    (dest : addr) (W : Z) (T : time) (mps : Z) (w : World) (chunks : list bytes) :
  0 <= W ->
  (forall s,
      sender_reachable make_packet any_ack (sender_boot dest W T mps w chunks) s ->
      window_inv W s) /\
  (forall s,
      sender_reachable make_packet assigned_ack (sender_boot dest W T mps w chunks) s ->
      base (snd_state s) <= next_seq_num (snd_state s)).
Proof.
  intros HW. split.
  - intros s Hr. induction Hr as [|s s' _ IH Hstep].
    + unfold window_inv, sender_boot. cbn. repeat split; (lia || discriminate).
    + eapply sender_step_inv; eassumption.
  - intros s Hr. induction Hr as [|s s' _ IH Hstep].
    + cbn. lia.
    + eapply sender_step_lower; eassumption.
Qed.

Lemma send_data_create_raises self chunk :
  send_data_create self chunk = Raise AttributeError.
Proof. reflexivity. Qed.

(** One pass of the acknowledgment worker leaves the sender as it was. *)
Lemma _receive_acks_iter_state self ev : (_receive_acks_iter self ev).1 = self.
Proof. destruct ev; reflexivity. Qed.

Lemma program_step_cases make_packet s s' :
  program_step make_packet s s' ->
  s' = s \/ sender_step make_packet assigned_ack s s'.
Proof.
  intros [s0|s0 ev|s0].
  - right. apply step_send.
  - left. rewrite _receive_acks_iter_state. destruct s0; reflexivity.
  - right. apply step_timer.
Qed.

Lemma program_reachable_inv make_packet dest W T mps w chunks s :
  0 <= W ->
  program_reachable make_packet (sender_boot dest W T mps w chunks) s ->
  window_inv W s /\ base (snd_state s) <= next_seq_num (snd_state s).
Proof.
  intros HW Hr. induction Hr as [|s s' _ [IHw IHl] Hstep].
  - unfold window_inv, sender_boot. cbn. repeat split; (lia || discriminate).
  - destruct (program_step_cases _ _ _ Hstep) as [-> | Hs]; [split; assumption|].
    split.
    + eapply sender_step_inv; eassumption.
    + eapply sender_step_lower; eassumption.
Qed.

(** What one step of the thread in [send_data] does to the window and to the
    socket: [base] stays, [next_seq_num] moves only in the step that records a
    sent packet, and [sendto] is called only in the step that builds one. *)
Lemma send_data_step_effect make_packet s :
  let s' := send_data_step make_packet s in
  base (snd_state s') = base (snd_state s) /\
  (next_seq_num (snd_state s') = next_seq_num (snd_state s) \/
   admitted (snd_pc s) = true /\
   next_seq_num (snd_state s') = next_seq_num (snd_state s) + 1) /\
  (sendto_calls (snd_world s') = sendto_calls (snd_world s) \/
   admitted (snd_pc s) = true).
Proof.
  assert (Hsame : forall (self : RDTSender) (w : World) pc pc',
             base (snd_state (mkSys self w pc')) = base self /\
             (next_seq_num (snd_state (mkSys self w pc')) = next_seq_num self \/
              admitted pc = true /\
              next_seq_num (snd_state (mkSys self w pc')) = next_seq_num self + 1) /\
             (sendto_calls (snd_world (mkSys self w pc')) = sendto_calls w \/
              admitted pc = true)).
  { intros. cbn. split; [reflexivity|]. split; left; reflexivity. }
  destruct s as [self w pc]. unfold send_data_step.
  cbn [snd_state snd_world snd_pc].
  destruct pc as [[|c cs]|c cs|p cs| | |e]; try apply Hsame.
  - destruct (_ <? _); apply Hsame.
  - destruct (make_packet self c) as [p|e]; [|apply Hsame].
    pose proof (_send_packet_window self w p) as H.
    destruct (_send_packet self w p) as [[s1 w1] p1]. cbn in H.
    destruct H as (Hb & Hn & _). cbn.
    split; [exact Hb|]. split; [left; exact Hn | right; reflexivity].
  - unfold time_time. cbn.
    split; [reflexivity|]. split; [right; split; reflexivity | left; reflexivity].
  - destruct (_ <=? _); apply Hsame.
Qed.

(** C6: with a window size [W] of at least 0, every state the sender reaches
    has [base <= next_seq_num <= base + W].  A step of [send_data] that calls
    [sendto] or changes [next_seq_num] is taken only after the window test
    [next_seq_num < base + W] has succeeded, the test still holds when the
    step is taken, and the step leaves [base] alone and adds 1 to
    [next_seq_num] or leaves it.  A pass of the acknowledgment worker leaves
    the sender's state, hence [base], as it was, whatever the socket gives it;
    a pass of the timer worker leaves [base] and [next_seq_num] as they were.
    This holds whichever way [send_data] builds its packets. *)
Theorem sender_window_invariant
    (make_packet : RDTSender -> bytes -> result Packet)
    (dest : addr) (W : Z) (T : time) (mps : Z) (w : World) (chunks : list bytes)
    (s : sender_sys) :
  0 <= W ->
  program_reachable make_packet (sender_boot dest W T mps w chunks) s ->
  base (snd_state s) <= next_seq_num (snd_state s) <= base (snd_state s) + W /\
  s_window_size (snd_state s) = W /\
  (sendto_calls (snd_world (send_data_step make_packet s))
     <> sendto_calls (snd_world s) \/
   next_seq_num (snd_state (send_data_step make_packet s))
     <> next_seq_num (snd_state s) ->
   admitted (snd_pc s) = true /\
   next_seq_num (snd_state s) < base (snd_state s) + W) /\
  base (snd_state (send_data_step make_packet s)) = base (snd_state s) /\
  (next_seq_num (snd_state (send_data_step make_packet s))
     = next_seq_num (snd_state s) \/
   next_seq_num (snd_state (send_data_step make_packet s))
     = next_seq_num (snd_state s) + 1) /\
  (forall ev, (_receive_acks_iter (snd_state s) ev).1 = snd_state s) /\
  base (_check_timeouts_iter (snd_state s) (snd_world s)).1 = base (snd_state s) /\
  next_seq_num (_check_timeouts_iter (snd_state s) (snd_world s)).1
    = next_seq_num (snd_state s).
Proof.
  intros HW Hr.
  destruct (program_reachable_inv _ _ _ _ _ _ _ _ HW Hr) as ((Hw & Hle & Hadm) & Hlow).
  pose proof (send_data_step_effect make_packet s) as (Hb & Hn & Hc).
  pose proof (_check_timeouts_window (snd_state s) (snd_world s)) as (Htb & Htn & _).
  split; [lia|]. split; [exact Hw|]. split.
  { intros Hch.
    assert (Ha : admitted (snd_pc s) = true).
    { destruct Hch as [Hch|Hch]; [destruct Hc as [Hc|Hc] | destruct Hn as [Hn|[Hn _]]];
        (contradiction || assumption). }
    split; [exact Ha | exact (Hadm Ha)]. }
  split; [exact Hb|]. split; [destruct Hn as [Hn|[_ Hn]]; [left|right]; exact Hn|].
  split; [intros ev; apply _receive_acks_iter_state|].
  split; assumption.
Qed.

Lemma sender_window_invariant_witness :
  0 <= 1 /\
  program_reachable keyword_create narrow_boot window_full /\
  base (snd_state window_full) = 0 /\
  next_seq_num (snd_state window_full) = 1 /\
  snd_pc window_full = Admit [ascii_bytes "EFGH"] /\
  length (wire (snd_world window_full)) = 1%nat /\
  (base (snd_state window_full) <= next_seq_num (snd_state window_full)
     <= base (snd_state window_full) + 1 /\
   s_window_size (snd_state window_full) = 1 /\
   (sendto_calls (snd_world (send_data_step keyword_create window_full))
      <> sendto_calls (snd_world window_full) \/
    next_seq_num (snd_state (send_data_step keyword_create window_full))
      <> next_seq_num (snd_state window_full) ->
    admitted (snd_pc window_full) = true /\
    next_seq_num (snd_state window_full) < base (snd_state window_full) + 1) /\
   base (snd_state (send_data_step keyword_create window_full))
     = base (snd_state window_full) /\
   (next_seq_num (snd_state (send_data_step keyword_create window_full))
      = next_seq_num (snd_state window_full) \/
    next_seq_num (snd_state (send_data_step keyword_create window_full))
      = next_seq_num (snd_state window_full) + 1) /\
   (forall ev,
       (_receive_acks_iter (snd_state window_full) ev).1 = snd_state window_full) /\
   base (_check_timeouts_iter (snd_state window_full) (snd_world window_full)).1
     = base (snd_state window_full) /\
   next_seq_num (_check_timeouts_iter (snd_state window_full) (snd_world window_full)).1
     = next_seq_num (snd_state window_full)).
Proof.
  assert (H0 : 0 <= 1) by discriminate.
  assert (Hr : program_reachable keyword_create narrow_boot window_full).
  { unfold window_full, first_chunk_out.
    eapply prog_next; [|apply prog_timer].
    eapply prog_next; [|apply prog_ack].
    eapply prog_next; [|apply prog_send].
    eapply prog_next; [|apply prog_send].
    eapply prog_next; [|apply prog_send].
    apply prog_init. }
  split; [exact H0|]. split; [exact Hr|].
  split; [vm_compute; reflexivity|]. split; [vm_compute; reflexivity|].
  split; [vm_compute; reflexivity|]. split; [vm_compute; reflexivity|].
  exact (sender_window_invariant keyword_create localhost 1 2 4 quiet_world
           [ascii_bytes "ABCD"; ascii_bytes "EFGH"] window_full H0 Hr).
Defined.

(** ** The receiver *)

(** C2: the first valid data packet a fresh receiver handles carries
    sequence number 1; the receiver stores it, delivers nothing, and sends an
    acknowledgment with number 0 although sequence number 0 has not been
    delivered. *)
Theorem ack_zero_sent_before_delivery :
  let p := sealed (data_packet 1 (ascii_bytes "EFGH")) in
  is_data p = true /\ is_corrupt p = Ok false /\
  exists st w,
    _handle_data_packet (RDTReceiver_init 5) quiet_world p localhost
    = Ok (st, w, [AckSent 0 localhost]) /\
    data_queue st = [] /\ expected_seq_num st = 0.
Proof.
  cbn zeta. split; [vm_compute; reflexivity|]. split; [vm_compute; reflexivity|].
  eexists. eexists. split; [vm_compute; reflexivity|].
  split; reflexivity.
Qed.

Lemma _send_ack_reassembly self w a dest :
  let '(self', _, evs) := _send_ack self w a dest in
  expected_seq_num self' = expected_seq_num self /\
  receive_buffer self' = receive_buffer self /\
  data_queue self' = data_queue self /\
  deliveries evs = [] /\
  (evs = [] \/ evs = [AckSent (Z.max 0 a) dest]).
Proof.
  unfold _send_ack.
  assert (Ha : (if a <? 0 then 0 else a) = Z.max 0 a)
    by (destruct (Z.ltb_spec a 0); lia).
  rewrite Ha.
  destruct (create_ack_packet _ _) as [p|]; [|cbn; tauto].
  destruct (serialize p) as [[b p']|]; [|cbn; tauto].
  destruct (sock_sendto w b dest) as [[[]|] w']; cbn; tauto.
Qed.

(** The loop leaves when the expected sequence number is not buffered: the
    fuel given by the handler is never what stops it. *)
Lemma deliver_in_order_exits fuel self :
  (size (receive_buffer self) <= fuel)%nat ->
  let self' := (deliver_in_order fuel self).1 in
  receive_buffer self' !! expected_seq_num self' = None.
Proof.
  revert self. induction fuel as [|fuel IH]; intros self Hsz; cbn.
  - assert (receive_buffer self = ∅) as -> by (apply map_size_empty_inv; lia).
    apply lookup_empty.
  - destruct (receive_buffer self !! expected_seq_num self) as [pkt|] eqn:E;
      [|exact E].
    set (self1 := with_reassembly _ _ _ _).
    specialize (IH self1). destruct (deliver_in_order fuel self1) as [s2 evs].
    cbn in *. apply IH. subst self1. cbn.
    pose proof (map_size_delete_Some (expected_seq_num self) (receive_buffer self)
                  (mk_is_Some _ _ E)). lia.
Qed.

Section Reassembly.
Variable chunks : list bytes.

Lemma deliver_in_order_inv fuel self log :
  reassembly_inv chunks self log ->
  let '(self', evs) := deliver_in_order fuel self in
  reassembly_inv chunks self' (log ++ deliveries evs) /\ acks evs = [].
Proof.
  revert self log. induction fuel as [|fuel IH]; intros self log Hinv.
  - cbn. rewrite app_nil_r. split; [exact Hinv | reflexivity].
  - cbn [deliver_in_order].
    destruct (receive_buffer self !! expected_seq_num self) as [pkt|] eqn:E.
    2:{ cbn. rewrite app_nil_r. split; [exact Hinv | reflexivity]. }
    set (self1 := with_reassembly _ _ _ _).
    destruct Hinv as (He & Hlen & Hlog & Hq & Hbuf).
    destruct (Hbuf _ _ E) as [_ Hchunk].
    assert (Hinv1 : reassembly_inv chunks self1
                      (log ++ [(expected_seq_num self, data pkt)])).
    { subst self1. unfold reassembly_inv. cbn.
      replace (Z.to_nat (expected_seq_num self + 1))
        with (S (Z.to_nat (expected_seq_num self))) by lia.
      rewrite (take_S_r _ _ _ Hchunk).
      split; [lia|]. split.
      { apply lookup_lt_Some in Hchunk. lia. }
      split.
      { unfold numbered. rewrite imap_app. cbn. rewrite length_take.
        rewrite Hlog. unfold numbered. do 3 f_equal. lia. }
      split; [rewrite Hq; reflexivity|].
      intros k p Hk. apply lookup_delete_Some in Hk as [_ Hk]. eauto. }
    specialize (IH self1 _ Hinv1).
    destruct (deliver_in_order fuel self1) as [s2 evs].
    cbn [deliveries acks omap]. fold (deliveries evs). fold (acks evs).
    destruct IH as [IH1 IH2]. rewrite <- app_assoc in IH1. cbn in IH1.
    split; [exact IH1 | exact IH2].
Qed.

Lemma _handle_data_packet_inv self w p a log :
  reassembly_inv chunks self log ->
  from_sender chunks p ->
  match _handle_data_packet self w p a with
  | Raise _ => True
  | Ok (self', _, evs) => reassembly_inv chunks self' (log ++ deliveries evs)
  end.
Proof.
  intros Hinv [Hseq Hchunk]. unfold _handle_data_packet.
  destruct (is_corrupt p) as [[|]|]; cbn [rbind]; [| |exact I].
  - cbn. rewrite app_nil_r. exact Hinv.
  - cbn [expected_seq_num with_stats packets_received acks_sent
           duplicates_received receive_buffer data_queue].
    destruct (Z.ltb_spec (seq_num p) (expected_seq_num self)) as [Hdup|Hnew].
    + match goal with |- context [_send_ack ?s ?w ?n ?d] =>
        pose proof (_send_ack_reassembly s w n d) as H;
        destruct (_send_ack s w n d) as [[s' w'] evs] end.
      destruct H as (H1 & H2 & H3 & H4 & _). cbn in H1, H2, H3.
      rewrite H4, app_nil_r. unfold reassembly_inv in *.
      rewrite H1, H2, H3. exact Hinv.
    + set (self1 := with_reassembly _ _ _ _).
      assert (Hinv1 : reassembly_inv chunks self1 log).
      { destruct Hinv as (He & Hlen & Hlog & Hq & Hbuf).
        subst self1. unfold reassembly_inv. cbn.
        repeat (split; [assumption|]).
        intros k pkt Hk. apply lookup_insert_Some in Hk as [[<- <-]|[_ Hk]]; eauto. }
      pose proof (deliver_in_order_inv (size (receive_buffer self1)) self1 log Hinv1) as H.
      destruct (deliver_in_order (size (receive_buffer self1)) self1) as [s2 evs].
      destruct H as [Hinv2 _].
      match goal with |- context [_send_ack ?s ?w ?n ?d] =>
        pose proof (_send_ack_reassembly s w n d) as H;
        destruct (_send_ack s w n d) as [[s' w'] evs'] end.
      destruct H as (H1 & H2 & H3 & H4 & _).
      unfold deliveries. rewrite omap_app. fold (deliveries evs) (deliveries evs').
      rewrite H4, app_nil_r. unfold reassembly_inv in *.
      rewrite H1, H2, H3. exact Hinv2.
Qed.

Lemma handle_all_inv arrivals self w out :
  reassembly_inv chunks self (deliveries out) ->
  Forall (fun pa => from_sender chunks pa.1) arrivals ->
  let '(self', _, out') :=
    fold_left (fun '(s, w, out) '(p, a) =>
                 match _handle_data_packet s w p a with
                 | Raise _ => (s, w, out)
                 | Ok (s', w', out') => (s', w', out ++ out')
                 end) arrivals (self, w, out) in
  reassembly_inv chunks self' (deliveries out').
Proof.
  revert self w out. induction arrivals as [|[p a] arrivals IH];
    intros self w out Hinv HF.
  - cbn. exact Hinv.
  - apply Forall_cons in HF as [Hp HF]. cbn [fold_left].
    pose proof (_handle_data_packet_inv self w p a _ Hinv Hp) as H.
    destruct (_handle_data_packet self w p a) as [[[s' w'] evs]|].
    + apply IH; [|exact HF]. unfold deliveries. rewrite omap_app. exact H.
    + apply IH; assumption.
Qed.
End Reassembly.

Lemma concat_groups fuel n (bs : bytes) :
  (0 < n)%nat -> (length bs <= fuel)%nat -> concat (groups fuel n bs) = bs.
Proof.
  intros Hn. revert bs. induction fuel as [|fuel IH]; intros bs Hlen.
  - destruct bs; [reflexivity | cbn in Hlen; lia].
  - destruct bs as [|b bs]; [reflexivity|].
    cbn [groups concat]. rewrite IH.
    + apply take_drop.
    + rewrite length_drop. cbn [length] in *. lia.
Qed.

Lemma split_chunks_concat mps input chunks :
  split_chunks mps input = Ok chunks -> chunks = [] \/ concat chunks = input.
Proof.
  unfold split_chunks. destruct (Z.eqb_spec mps 0); [discriminate|].
  destruct (Z.ltb_spec mps 0); intros [= <-]; [left; reflexivity|].
  right. apply concat_groups; lia.
Qed.

(** C7: whatever packets of the transfer the receiver handles, in whatever
    order and however often, the payloads put on the delivery queue are those
    of sequence numbers 0, 1, 2, ... up to the expected one, once each and in
    that order, and their concatenation is a prefix of the sender's input. *)
Theorem in_order_delivery_without_duplicates
    (W mps : Z) (input : bytes) (chunks : list bytes) (w : World)
    (arrivals : list (Packet * addr)) :
  split_chunks mps input = Ok chunks ->
  Forall (fun pa => from_sender chunks pa.1) arrivals ->
  let '(self, _, evs) := handle_all (RDTReceiver_init W) w arrivals in
  let n := Z.to_nat (expected_seq_num self) in
  deliveries evs = numbered (take n chunks) /\
  data_queue self = take n chunks /\
  (n <= length chunks)%nat /\
  concat (data_queue self) `prefix_of` input.
Proof.
  intros Hsplit HF. unfold handle_all.
  assert (H0 : reassembly_inv chunks (RDTReceiver_init W) (deliveries [])).
  { unfold reassembly_inv. cbn [RDTReceiver_init expected_seq_num data_queue
      receive_buffer deliveries omap].
    split; [lia|]. split; [cbn; lia|]. split; [reflexivity|]. split; [reflexivity|].
    intros k pkt Hk. rewrite lookup_empty in Hk. discriminate. }
  pose proof (handle_all_inv chunks arrivals _ w [] H0 HF) as H.
  destruct (fold_left _ arrivals _) as [[self w'] evs].
  destruct H as (He & Hlen & Hlog & Hq & _). cbn zeta.
  repeat (split; [assumption|]).
  rewrite Hq. destruct (split_chunks_concat _ _ _ Hsplit) as [-> | <-].
  - rewrite take_nil. apply prefix_nil.
  - rewrite <- (take_drop (Z.to_nat (expected_seq_num self)) chunks) at 2.
    rewrite concat_app. apply prefix_app_r. reflexivity.
Qed.

Lemma in_order_delivery_without_duplicates_witness :
  let chunks := [ascii_bytes "ABCD"; ascii_bytes "EFGH"; ascii_bytes "IJ"] in
  split_chunks 4 scenario_input = Ok chunks /\
  Forall (fun pa => from_sender chunks pa.1) scenario_arrivals /\
  (let '(self, _, evs) := handle_all (RDTReceiver_init 5) quiet_world scenario_arrivals in
   let n := Z.to_nat (expected_seq_num self) in
   deliveries evs = numbered (take n chunks) /\
   data_queue self = take n chunks /\
   (n <= length chunks)%nat /\
   concat (data_queue self) `prefix_of` scenario_input).
Proof.
  cbn zeta.
  assert (H1 : split_chunks 4 scenario_input
               = Ok [ascii_bytes "ABCD"; ascii_bytes "EFGH"; ascii_bytes "IJ"])
    by (vm_compute; reflexivity).
  assert (H2 : Forall (fun pa => from_sender
                 [ascii_bytes "ABCD"; ascii_bytes "EFGH"; ascii_bytes "IJ"] pa.1)
                 scenario_arrivals).
  { repeat first [apply List.Forall_nil | apply List.Forall_cons];
      (split; [vm_compute; discriminate | vm_compute; reflexivity]). }
  split; [exact H1|]. split; [exact H2|].
  exact (in_order_delivery_without_duplicates 5 4 scenario_input _ quiet_world
           scenario_arrivals H1 H2).
Defined.

(** The scenario run: three deliveries in order, the duplicate delivers
    nothing, and four acknowledgments 0, 0, 2, 2 leave, the first of them
    before anything was delivered. *)
Example scenario_run :
  let '(self, _, evs) := handle_all (RDTReceiver_init 5) quiet_world scenario_arrivals in
  deliveries evs = [(0, ascii_bytes "ABCD"); (1, ascii_bytes "EFGH"); (2, ascii_bytes "IJ")]
  /\ acks evs = [0; 0; 2; 2]
  /\ duplicates_received self = 1 /\ packets_received self = 4.
Proof. vm_compute. repeat split; reflexivity. Qed.

(** ** Retransmission *)

Lemma same_but_checksum_refl p : same_but_checksum p p.
Proof. reflexivity. Qed.

Lemma same_but_checksum_trans p q r :
  same_but_checksum p q -> same_but_checksum q r -> same_but_checksum p r.
Proof. unfold same_but_checksum. congruence. Qed.

Lemma same_but_checksum_fields p q :
  same_but_checksum p q ->
  seq_num p = seq_num q /\ data p = data q /\ serialize p = serialize q.
Proof.
  destruct p, q. unfold same_but_checksum, set_checksum. cbn.
  intros [= -> -> -> -> -> ->]. repeat split; reflexivity.
Qed.

Lemma serialize_same p b p' : serialize p = Ok (b, p') -> same_but_checksum p p'.
Proof.
  unfold serialize. destruct (calculate_checksum p) as [c|]; cbn [rbind]; [|discriminate].
  destruct (pack _ _); cbn [rbind]; [|discriminate].
  intros [= _ <-]. destruct p. reflexivity.
Qed.

Lemma serialize_again p b p' : serialize p = Ok (b, p') -> serialize p' = Ok (b, p').
Proof.
  intros H. pose proof (serialize_same _ _ _ H) as Hs.
  apply same_but_checksum_fields in Hs as (_ & _ & Hser).
  rewrite <- Hser. exact H.
Qed.

Lemma _send_packet_datagram self w p :
  let '(self', w', p') := _send_packet self w p in
  same_but_checksum p p' /\
  send_buffer self' = send_buffer self /\ dest_addr self' = dest_addr self /\
  s_timeout self' = s_timeout self /\
  (wire w' = wire w \/
   exists b, wire_bytes_of p = Some b /\ wire w' = wire w ++ [(b, dest_addr self)]).
Proof.
  unfold _send_packet, wire_bytes_of.
  destruct (serialize p) as [[b p']|] eqn:E.
  - apply serialize_same in E.
    unfold sock_sendto. destruct (sendto_fails w (sendto_calls w)); cbn.
    + repeat (split; [assumption || reflexivity|]). left; reflexivity.
    + repeat (split; [assumption || reflexivity|]). right. eauto.
  - cbn. repeat (split; [reflexivity|]). left; reflexivity.
Qed.

Lemma buffer_same_refl b : buffer_same b b.
Proof. induction b; constructor; [split; reflexivity | assumption]. Qed.

Lemma buffer_same_set b0 b k p0 ts p' t' :
  dict_wf b0 -> buffer_same b0 b ->
  In (k, (p0, ts)) b0 -> same_but_checksum p0 p' ->
  buffer_same b0 (PyDict.set b k (p', t')).
Proof.
  intros Hwf Hsame. revert Hwf.
  induction Hsame as [|[k0 [q0 t0]] [k1 [q1 t1]] r0 r [Hk Hq] Hrest IH];
    intros Hwf Hin Hp.
  - destruct Hin.
  - cbn in Hk. subst k1. unfold dict_wf in Hwf. cbn [map fst] in Hwf.
    apply NoDup_cons in Hwf as [Hnotin Hwf]. cbn [PyDict.set].
    destruct (Z.eqb_spec k0 k) as [->|Hne].
    + constructor; [|exact Hrest]. cbn. split; [reflexivity|].
      destruct Hin as [Heq|Hin].
      * injection Heq as -> _. exact Hp.
      * exfalso. apply Hnotin. apply list_elem_of_In.
        change k with (fst (k, (p0, ts))). apply in_map, Hin.
    + constructor; [split; [reflexivity | exact Hq]|].
      apply IH; [exact Hwf| |exact Hp].
      destruct Hin as [Heq|Hin]; [congruence | exact Hin].
Qed.

Lemma buffer_same_In b0 b k p t :
  buffer_same b0 b -> In (k, (p, t)) b ->
  exists p0 t0, In (k, (p0, t0)) b0 /\ same_but_checksum p0 p.
Proof.
  induction 1 as [|[k0 [q0 t0]] [k1 [q1 t1]] r0 r [Hk Hq] Hrest IH]; intros Hin.
  - destruct Hin.
  - destruct Hin as [Heq|Hin].
    + injection Heq as -> -> ->. cbn in Hk, Hq. subst. exists q0, t0.
      split; [left; reflexivity | exact Hq].
    + destruct (IH Hin) as (p0 & t0' & H1 & H2). exists p0, t0'.
      split; [right; exact H1 | exact H2].
Qed.

Lemma retransmit_fold b0 dest (l : list (Z * Packet)) self w :
  dict_wf b0 -> buffer_same b0 (send_buffer self) -> dest_addr self = dest ->
  Forall (fun e => exists p0 t0, In (e.1, (p0, t0)) b0 /\ same_but_checksum p0 e.2) l ->
  let '(self', w') := fold_left retransmit_one l (self, w) in
  buffer_same b0 (send_buffer self') /\ dest_addr self' = dest /\
  s_timeout self' = s_timeout self /\
  exists extra, wire w' = wire w ++ extra /\ Forall (resent_from b0 dest) extra.
Proof.
  intros Hwf. revert self w.
  induction l as [|[k p] l IH]; intros self w Hsame Hdest HF.
  - cbn. repeat (split; [assumption || reflexivity|]).
    exists []. rewrite app_nil_r. split; [reflexivity | constructor].
  - apply Forall_cons in HF as [(p0 & t0 & Hin & Hp) HF]. cbn [fst snd] in Hin, Hp.
    cbn [fold_left]. unfold retransmit_one at 2.
    pose proof (_send_packet_datagram self w p) as Hsend.
    destruct (_send_packet self w p) as [[s1 w1] p1].
    destruct Hsend as (Hpp1 & Hbuf1 & Hdest1 & Hto1 & Hwire1).
    destruct (time_time w1) as [now w2] eqn:Etime.
    assert (Hw2 : wire w2 = wire w1).
    { unfold time_time in Etime. injection Etime as _ <-. reflexivity. }
    match goal with |- context [fold_left retransmit_one l (?s, w2)] =>
      set (s2 := s) end.
    specialize (IH s2 w2).
    assert (Hsame2 : buffer_same b0 (send_buffer s2)).
    { subst s2. cbn. rewrite Hbuf1.
      eapply buffer_same_set; try eassumption.
      eapply same_but_checksum_trans; eassumption. }
    assert (Hdest2 : dest_addr s2 = dest) by (subst s2; cbn; congruence).
    specialize (IH Hsame2 Hdest2 HF).
    destruct (fold_left retransmit_one l (s2, w2)) as [s3 w3].
    destruct IH as (H1 & H2 & H3 & extra & H4 & H5).
    split; [exact H1|]. split; [exact H2|].
    split; [subst s2; cbn in H3; congruence|].
    rewrite H4, Hw2. destruct Hwire1 as [-> | (b & Hb & ->)].
    + exists extra. split; [reflexivity | exact H5].
    + exists ((b, dest_addr self) :: extra). rewrite <- app_assoc.
      split; [reflexivity|]. constructor; [|exact H5].
      split; [exact Hdest|]. exists k, p0, t0. split; [exact Hin|].
      cbn [fst]. unfold wire_bytes_of in *.
      apply same_but_checksum_fields in Hp as (_ & _ & ->). exact Hb.
Qed.

Lemma timed_out_from b0 self t :
  buffer_same b0 (send_buffer self) ->
  Forall (fun e => exists p0 t0, In (e.1, (p0, t0)) b0 /\ same_but_checksum p0 e.2)
         (timed_out self t).
Proof.
  intros Hsame. unfold timed_out, PyDict.items. apply Forall_forall.
  intros [k p] Hin.
  apply list_elem_of_omap in Hin as ([k' [p' ts]] & Hin & Hsel).
  destruct (s_timeout self <? t - ts); [|discriminate].
  injection Hsel as -> ->. apply list_elem_of_In in Hin.
  exact (buffer_same_In _ _ _ _ _ Hsame Hin).
Qed.

Lemma check_timeouts_passes_same n b0 self w :
  dict_wf b0 -> buffer_same b0 (send_buffer self) ->
  let '(self', w') := check_timeouts_passes n self w in
  buffer_same b0 (send_buffer self') /\ dest_addr self' = dest_addr self /\
  exists extra, wire w' = wire w ++ extra /\
                Forall (resent_from b0 (dest_addr self)) extra.
Proof.
  intros Hwf Hsame. unfold check_timeouts_passes.
  induction n as [|n IH].
  - cbn. repeat (split; [assumption || reflexivity|]).
    exists []. rewrite app_nil_r. split; [reflexivity | constructor].
  - rewrite Nat.iter_succ.
    destruct (Nat.iter n _ (self, w)) as [s1 w1].
    destruct IH as (Hs1 & Hd1 & extra1 & Hw1 & He1).
    cbv beta iota. unfold _check_timeouts_iter.
    destruct (time_time w1) as [t w1'] eqn:Etime.
    assert (Hw1' : wire w1' = wire w1).
    { unfold time_time in Etime. injection Etime as _ <-. reflexivity. }
    pose proof (retransmit_fold b0 (dest_addr self) (timed_out s1 t) s1 w1'
                  Hwf Hs1 Hd1 (timed_out_from b0 s1 t Hs1)) as H.
    destruct (fold_left retransmit_one (timed_out s1 t) (s1, w1')) as [s2 w2].
    destruct H as (H1 & H2 & _ & extra2 & H4 & H5).
    split; [exact H1|]. split; [exact H2|].
    exists (extra1 ++ extra2). rewrite H4, Hw1', Hw1, app_assoc.
    split; [reflexivity|]. apply Forall_app; split; assumption.
Qed.

(** C8: serializing a packet again gives the same bytes and leaves sequence
    number and payload alone; the first transmission puts those bytes on the
    wire; and after any number of passes of the timeout scanner the buffer
    holds the same packets up to the stored checksum, every datagram the
    passes sent being the serialization of a packet of the original buffer,
    addressed to the destination. *)
Theorem retransmission_byte_identical (n : nat) (self : RDTSender) (w : World) :
  dict_wf (send_buffer self) ->
  (forall p b p',
      serialize p = Ok (b, p') ->
      serialize p' = Ok (b, p') /\ seq_num p' = seq_num p /\ data p' = data p) /\
  (forall s0 w0 p,
      let '(s1, w1, p') := _send_packet s0 w0 p in
      wire_bytes_of p' = wire_bytes_of p /\
      (wire w1 = wire w0 \/
       exists b, wire_bytes_of p = Some b /\ wire w1 = wire w0 ++ [(b, dest_addr s0)])) /\
  let '(self', w') := check_timeouts_passes n self w in
  Forall2 (fun e e' =>
             e.1 = e'.1 /\ seq_num e.2.1 = seq_num e'.2.1 /\
             data e.2.1 = data e'.2.1 /\
             wire_bytes_of e.2.1 = wire_bytes_of e'.2.1)
          (send_buffer self) (send_buffer self') /\
  exists extra,
    wire w' = wire w ++ extra /\
    Forall (resent_from (send_buffer self) (dest_addr self)) extra.
Proof.
  intros Hwf. split.
  { intros p b p' H. split; [exact (serialize_again _ _ _ H)|].
    apply serialize_same, same_but_checksum_fields in H as (H1 & H2 & _).
    split; congruence. }
  split.
  { intros s0 w0 p. pose proof (_send_packet_datagram s0 w0 p) as H.
    destruct (_send_packet s0 w0 p) as [[s1 w1] p'].
    destruct H as (Hs & _ & _ & _ & Hw). split; [|exact Hw].
    unfold wire_bytes_of. apply same_but_checksum_fields in Hs as (_ & _ & ->).
    reflexivity. }
  pose proof (check_timeouts_passes_same n (send_buffer self) self w Hwf
                (buffer_same_refl _)) as H.
  destruct (check_timeouts_passes n self w) as [self' w'].
  destruct H as (Hsame & _ & Hextra). split; [|exact Hextra].
  eapply Forall2_impl; [exact Hsame|].
  intros e e' [Hk Hs]. split; [exact Hk|].
  unfold wire_bytes_of. apply same_but_checksum_fields in Hs as (-> & -> & ->).
  repeat split; reflexivity.
Qed.

Lemma retransmission_byte_identical_witness :
  dict_wf (send_buffer overdue_sender) /\
  (forall p b p',
      serialize p = Ok (b, p') ->
      serialize p' = Ok (b, p') /\ seq_num p' = seq_num p /\ data p' = data p) /\
  (forall s0 w0 p,
      let '(s1, w1, p') := _send_packet s0 w0 p in
      wire_bytes_of p' = wire_bytes_of p /\
      (wire w1 = wire w0 \/
       exists b, wire_bytes_of p = Some b /\ wire w1 = wire w0 ++ [(b, dest_addr s0)])) /\
  let '(self', w') := check_timeouts_passes 2 overdue_sender slow_world in
  Forall2 (fun e e' =>
             e.1 = e'.1 /\ seq_num e.2.1 = seq_num e'.2.1 /\
             data e.2.1 = data e'.2.1 /\
             wire_bytes_of e.2.1 = wire_bytes_of e'.2.1)
          (send_buffer overdue_sender) (send_buffer self') /\
  exists extra,
    wire w' = wire slow_world ++ extra /\
    Forall (resent_from (send_buffer overdue_sender) (dest_addr overdue_sender)) extra.
Proof.
  assert (Hwf : dict_wf (send_buffer overdue_sender)).
  { unfold dict_wf. cbn. repeat constructor; cbn; intros H;
      repeat (apply elem_of_cons in H as [H|H]; [discriminate|]);
      apply elem_of_nil in H; exact H. }
  split; [exact Hwf|].
  exact (retransmission_byte_identical 2 overdue_sender slow_world Hwf).
Defined.

(** Two passes over two overdue packets: four datagrams, the third equal to
    the first and the fourth to the second. *)
Example overdue_run :
  let '(self', w') := check_timeouts_passes 2 overdue_sender slow_world in
  retransmissions self' = 4 /\
  map fst (wire w') =
    [packed HEADER_FORMAT [0; 0; 1; 5; 4; 0x3a60] ++ ascii_bytes "ABCD";
     packed HEADER_FORMAT [1; 0; 1; 5; 4; 0x5bf1] ++ ascii_bytes "EFGH";
     packed HEADER_FORMAT [0; 0; 1; 5; 4; 0x3a60] ++ ascii_bytes "ABCD";
     packed HEADER_FORMAT [1; 0; 1; 5; 4; 0x5bf1] ++ ascii_bytes "EFGH"].
Proof. vm_compute. split; reflexivity. Qed.

(** ** receive_all_data *)

Lemma rad_loop_app timeout st pre post :
  rad_loop timeout st (pre ++ post) =
  match rad_loop timeout st pre with
  | Looping st' => rad_loop timeout st' post
  | Return_ out why => Return_ out why
  end.
Proof.
  revert st. induction pre as [|p pre IH]; intros st; [reflexivity|].
  cbn [app rad_loop].
  destruct (t_test p - last_activity_time st <? timeout); [|reflexivity].
  destruct (truthy (got p)); [apply IH|].
  match goal with |- context [if ?c then Return_ _ _ else _] => destruct c end;
    [reflexivity | apply IH].
Qed.

Lemma dequeued_cons p ps :
  dequeued (p :: ps) =
  match truthy (got p) with
  | Some d => d ++ dequeued ps
  | None => dequeued ps
  end.
Proof. unfold dequeued. cbn. destruct (truthy (got p)); reflexivity. Qed.

Lemma dequeued_app ps qs : dequeued (ps ++ qs) = dequeued ps ++ dequeued qs.
Proof. unfold dequeued. rewrite omap_app, concat_app. reflexivity. Qed.

Lemma rad_loop_looping timeout st pre st' :
  rad_loop timeout st pre = Looping st' ->
  all_data st' = all_data st ++ dequeued pre /\
  last_activity_time st' = last_activity (last_activity_time st) pre /\
  consecutive_empty_reads st' = idle_run_from (consecutive_empty_reads st) pre.
Proof.
  revert st. induction pre as [|p pre IH]; intros st.
  - cbn. intros [= <-]. rewrite app_nil_r. repeat split; reflexivity.
  - cbn [rad_loop].
    destruct (t_test p - last_activity_time st <? timeout); [|discriminate].
    rewrite dequeued_cons. unfold last_activity, idle_run_from, active.
    cbn [fold_left].
    destruct (truthy (got p)) as [d|] eqn:Et.
    + intros H. apply IH in H as (H1 & H2 & H3).
      cbn [all_data last_activity_time consecutive_empty_reads] in H1, H2, H3.
      rewrite H1, H2, H3, <- app_assoc. repeat split; reflexivity.
    + match goal with |- context [if ?c then Return_ _ _ else _] => destruct c end;
        [discriminate|].
      intros H. apply IH in H as (H1 & H2 & H3).
      rewrite H1, H2, H3.
      destruct (seen_before p <? seen_after p);
        cbn [all_data last_activity_time consecutive_empty_reads];
        repeat split; reflexivity.
Qed.

(** C9, as stated: with a timeout of 30 and a first pass thirty clock units
    after the call, [receive_all_data] returns although no byte was ever
    delivered. *)
Lemma receive_all_data_returns_empty_counterexample :
  ~ (forall timeout t0 polls out why,
        receive_all_data timeout t0 polls = Return_ out why -> out <> []).
Proof.
  intros H.
  apply (H 30 0 [idle_at 30] [] LoopTestFailed); reflexivity.
Qed.

(** C9, amended: [receive_all_data(timeout)] returns the concatenation of the
    payloads it took off the queue, and it leaves its loop at a pass exactly
    in two cases: the loop test finds that [timeout] or more has elapsed since
    the last recorded activity, whether or not any byte was delivered; or the
    pass is idle, it is at least the 201st idle pass in a row, and at least
    one byte has been delivered.  Once it has returned, later observations
    change nothing. *)
Theorem receive_all_data_exit
    (timeout t0 : time) (pre : list poll) (p : poll) (st : rad_state) :
  receive_all_data timeout t0 pre = Looping st ->
  let quiet := t_test p - last_activity t0 pre in
  match receive_all_data timeout t0 (pre ++ [p]) with
  | Return_ out LoopTestFailed =>
      out = dequeued pre /\ timeout <= quiet
  | Return_ out IdleBreak =>
      out = dequeued pre /\ quiet < timeout /\ active p = false /\
      200 <= idle_run pre /\ dequeued pre <> []
  | Looping st' =>
      all_data st' = dequeued (pre ++ [p]) /\ quiet < timeout /\
      (active p = true \/ idle_run pre < 200 \/ dequeued pre = [])
  end /\
  (forall post out why,
      receive_all_data timeout t0 (pre ++ [p]) = Return_ out why ->
      receive_all_data timeout t0 (pre ++ p :: post) = Return_ out why).
Proof.
  intros Hpre. cbn zeta. split.
  2:{ intros post out why H. unfold receive_all_data in *.
      change (p :: post) with ([p] ++ post). rewrite app_assoc, rad_loop_app, H.
      reflexivity. }
  unfold receive_all_data in *.
  pose proof (rad_loop_looping _ _ _ _ Hpre) as (Hall & Hlast & Hcnt).
  cbn [all_data last_activity_time consecutive_empty_reads app] in Hall, Hlast, Hcnt.
  fold (idle_run pre) in Hcnt.
  rewrite rad_loop_app, Hpre. cbn [rad_loop].
  rewrite Hlast.
  destruct (Z.ltb_spec (t_test p - last_activity t0 pre) timeout) as [Hq|Hq];
    [|split; [exact Hall | lia]].
  rewrite dequeued_app, (dequeued_cons p []). change (dequeued []) with (@nil byte).
  unfold active.
  destruct (truthy (got p)) as [d|] eqn:Et.
  { cbn [all_data]. rewrite Hall, app_nil_r.
    split; [reflexivity|]. split; [exact Hq | left; reflexivity]. }
  destruct (seen_before p <? seen_after p) eqn:Eseen;
    cbn [consecutive_empty_reads all_data andb].
  { change (200 <? 0) with false. cbn [andb all_data].
    rewrite Hall, app_nil_r. split; [reflexivity|]. split; [exact Hq | left; reflexivity]. }
  rewrite Hcnt, Hall.
  destruct (Z.ltb_spec 200 (idle_run pre + 1)) as [Hc|Hc]; cbn [andb].
  - destruct (Z.ltb_spec 0 (Z.of_nat (length (dequeued pre)))) as [Hl|Hl].
    + split; [reflexivity|]. split; [exact Hq|]. split; [reflexivity|].
      split; [lia|]. intros E. rewrite E in Hl. cbn in Hl. lia.
    + cbn [all_data]. rewrite app_nil_r. split; [reflexivity|]. split; [exact Hq|].
      right. right. destruct (dequeued pre); [reflexivity | cbn in Hl; lia].
  - cbn [all_data]. rewrite app_nil_r. split; [reflexivity|]. split; [exact Hq|].
    right. left. lia.
Qed.

Lemma receive_all_data_exit_witness :
  let pre := chunk_at 0 (ascii_bytes "AB") :: repeat (idle_at 1) 200 in
  let p := idle_at 2 in
  receive_all_data 1000 0 pre = Looping (mkRad (ascii_bytes "AB") 0 200) /\
  receive_all_data 1000 0 (pre ++ [p]) = Return_ (ascii_bytes "AB") IdleBreak /\
  (let quiet := t_test p - last_activity 0 pre in
   match receive_all_data 1000 0 (pre ++ [p]) with
   | Return_ out LoopTestFailed =>
       out = dequeued pre /\ 1000 <= quiet
   | Return_ out IdleBreak =>
       out = dequeued pre /\ quiet < 1000 /\ active p = false /\
       200 <= idle_run pre /\ dequeued pre <> []
   | Looping st' =>
       all_data st' = dequeued (pre ++ [p]) /\ quiet < 1000 /\
       (active p = true \/ idle_run pre < 200 \/ dequeued pre = [])
   end /\
   (forall post out why,
       receive_all_data 1000 0 (pre ++ [p]) = Return_ out why ->
       receive_all_data 1000 0 (pre ++ p :: post) = Return_ out why)).
Proof.
  cbn zeta.
  assert (H : receive_all_data 1000 0
                (chunk_at 0 (ascii_bytes "AB") :: repeat (idle_at 1) 200)
              = Looping (mkRad (ascii_bytes "AB") 0 200))
    by (vm_compute; reflexivity).
  split; [exact H|]. split; [vm_compute; reflexivity|].
  exact (receive_all_data_exit 1000 0 _ (idle_at 2) _ H).
Defined.

(** ** MD5 test vectors (RFC 1321) *)

Example md5_empty :
  hex_of (MD5.digest []) =
  [0xd4; 0x1d; 0x8c; 0xd9; 0x8f; 0x00; 0xb2; 0x04;
   0xe9; 0x80; 0x09; 0x98; 0xec; 0xf8; 0x42; 0x7e].
Proof. vm_compute. reflexivity. Qed.

Example md5_abc :
  hex_of (MD5.digest (ascii_bytes "abc")) =
  [0x90; 0x01; 0x50; 0x98; 0x3c; 0xd2; 0x4f; 0xb0;
   0xd6; 0x96; 0x3f; 0x7d; 0x28; 0xe1; 0x7f; 0x72].
Proof. vm_compute. reflexivity. Qed.

Example md5_two_blocks :
  hex_of (MD5.digest (ascii_bytes
    "12345678901234567890123456789012345678901234567890123456789012345678901234567890")) =
  [0x57; 0xed; 0xf4; 0xa2; 0x2b; 0xe3; 0xc9; 0x55;
   0xac; 0x49; 0xda; 0x2e; 0x21; 0x07; 0xb6; 0x7a].
Proof. vm_compute. reflexivity. Qed.

(** The checksum of a data packet, as [hashlib] computes it. *)
Example checksum_of_first_chunk :
  calculate_checksum (data_packet 0 (ascii_bytes "ABCD")) = Ok 0x3a60.
Proof. vm_compute. reflexivity. Qed.

(* ===================================================================== *)
(** * Further properties of the code *)
(* ===================================================================== *)

(** ** Flags *)

Lemma py_bool_land_pow2 (f : Z) (k : Z) :
  0 <= k -> py_bool (Z.land f (2 ^ k)) = Z.testbit f k.
Proof.
  intros Hk. unfold py_bool.
  destruct (Z.testbit f k) eqn:E.
  - destruct (Z.eqb_spec (Z.land f (2 ^ k)) 0) as [H0|]; [|reflexivity].
    assert (Hb : Z.testbit (Z.land f (2 ^ k)) k = true).
    { rewrite Z.land_spec, E, Z.pow2_bits_true by lia. reflexivity. }
    rewrite H0, Z.bits_0 in Hb. discriminate.
  - replace (Z.land f (2 ^ k)) with 0; [reflexivity|].
    symmetry. apply Z.bits_inj'. intros n Hn.
    rewrite Z.land_spec, Z.bits_0, Z.pow2_bits_eqb by lia.
    destruct (Z.eqb_spec k n) as [->|]; [rewrite E|]; apply andb_false_r || reflexivity.
Qed.

(** X1: each of [is_data], [is_ack], [is_fin], [is_syn] answers exactly its
    own bit of [flags] (bits 0, 1, 2, 3), whatever the other bits are; the
    packets built by [create_ack_packet], [create_syn_packet],
    [create_fin_packet] and [create_syn_ack_packet] answer true to the
    predicates of their names only, and carry no payload. *)
Theorem flag_predicates_test_their_bit :
  (forall p : Packet,
      is_data p = Z.testbit (flags p) 0 /\ is_ack p = Z.testbit (flags p) 1 /\
      is_fin p = Z.testbit (flags p) 2 /\ is_syn p = Z.testbit (flags p) 3) /\
  (forall a w, exists p,
      create_ack_packet a w = Ok p /\ ack_num p = a /\ window_size p = w /\
      data p = [] /\ data_length p = 0 /\
      (is_data p, is_ack p, is_fin p, is_syn p) = (false, true, false, false)) /\
  (forall s, exists p,
      create_syn_packet s = Ok p /\ seq_num p = s /\ data p = [] /\
      data_length p = 0 /\
      (is_data p, is_ack p, is_fin p, is_syn p) = (false, false, false, true)) /\
  (forall s, exists p,
      create_fin_packet s = Ok p /\ seq_num p = s /\ data p = [] /\
      data_length p = 0 /\
      (is_data p, is_ack p, is_fin p, is_syn p) = (false, false, true, false)) /\
  (forall s a, exists p,
      create_syn_ack_packet s a = Ok p /\ seq_num p = s /\ ack_num p = a /\
      data p = [] /\ data_length p = 0 /\
      (is_data p, is_ack p, is_fin p, is_syn p) = (false, true, false, true)).
Proof.
  split.
  { intros p. unfold is_data, is_ack, is_fin, is_syn, PacketType.DATA,
      PacketType.ACK, PacketType.FIN, PacketType.SYN.
    split; [exact (py_bool_land_pow2 (flags p) 0 ltac:(lia))|].
    split; [exact (py_bool_land_pow2 (flags p) 1 ltac:(lia))|].
    split; [exact (py_bool_land_pow2 (flags p) 2 ltac:(lia))|].
    exact (py_bool_land_pow2 (flags p) 3 ltac:(lia)). }
  repeat split; intros; eexists; (split; [reflexivity|]); repeat split; reflexivity.
Qed.

(** ** Packets that come out of deserialize *)

Lemma unpack_fields_fit fmt bs : Forall2 fits fmt (unpack_fields fmt bs).
Proof.
  revert bs. induction fmt as [|w fmt IH]; intros bs; cbn [unpack_fields];
    constructor; [|apply IH].
  unfold fits. pose proof (be_value_bound (take w bs)) as H.
  rewrite length_take in H.
  assert (256 ^ Z.of_nat (w `min` length bs) <= 256 ^ Z.of_nat w)
    by (apply Z.pow_le_mono_r; lia).
  lia.
Qed.

Lemma wire_field_fits raw :
  fits 4 (wire_field 0 raw) /\ fits 4 (wire_field 1 raw) /\
  fits 1 (wire_field 2 raw) /\ fits 2 (wire_field 3 raw) /\
  fits 2 (wire_field 4 raw) /\ fits 2 (wire_field 5 raw).
Proof.
  pose proof (unpack_fields_fit HEADER_FORMAT (take 15 raw)) as H.
  unfold wire_field. unfold HEADER_FORMAT in *. cbn [unpack_fields] in *.
  repeat match goal with
         | H : Forall2 _ (_ :: _) (_ :: _) |- _ => apply Forall2_cons_1 in H as [? H]
         end.
  cbn [nth]. tauto.
Qed.

Lemma parsed_well_formed raw : well_formed (parsed raw) /\ fits 2 (checksum (parsed raw)).
Proof.
  destruct (wire_field_fits raw) as (H0 & H1 & H2 & H3 & H4 & H5).
  split; [|exact H5]. unfold fits in *.
  change (256 ^ Z.of_nat 4) with (2 ^ 32) in *.
  change (256 ^ Z.of_nat 2) with (2 ^ 16) in *.
  change (256 ^ Z.of_nat 1) with (2 ^ 8) in *.
  constructor; unfold parsed, wire_data_length;
    cbn [seq_num ack_num flags window_size data data_length];
    try assumption; try reflexivity.
  rewrite length_take. lia.
Qed.

(** X2: every packet that [deserialize] returns has all header fields inside
    their wire ranges and [data_length] equal to the length of its payload, so
    [calculate_checksum], [is_corrupt] and [serialize] never raise on it. *)
Theorem deserialized_packet_well_formed (self : pyval) (raw : bytes) (p : Packet) :
  deserialize self VClassPacket (VBytes raw) = Ok (VPacket p) ->
  well_formed p /\ 0 <= checksum p < 2 ^ 16 /\
  (exists c, calculate_checksum p = Ok c) /\
  (exists b, is_corrupt p = Ok b) /\
  (exists wire p', serialize p = Ok (wire, p')).
Proof.
  rewrite deserialize_bytes.
  destruct (Z.of_nat (length raw) <? HEADER_SIZE); [discriminate|].
  intros [= <-]. destruct (parsed_well_formed raw) as [Hwf Hc].
  destruct (calculate_checksum_total _ Hwf) as [c Hcalc].
  split; [exact Hwf|]. split; [exact Hc|]. split; [eauto|]. split.
  - unfold is_corrupt. rewrite Hcalc. cbn [rbind]. eauto.
  - rewrite (serialize_well_formed _ _ Hwf Hcalc). eauto.
Qed.

Lemma deserialized_packet_well_formed_witness :
  exists p,
    deserialize VNone VClassPacket (VBytes truncated_payload) = Ok (VPacket p) /\
    well_formed p /\ 0 <= checksum p < 2 ^ 16 /\
    (exists c, calculate_checksum p = Ok c) /\
    (exists b, is_corrupt p = Ok b) /\
    (exists wire p', serialize p = Ok (wire, p')).
Proof.
  exists (parsed truncated_payload).
  assert (H : deserialize VNone VClassPacket (VBytes truncated_payload)
              = Ok (VPacket (parsed truncated_payload)))
    by (vm_compute; reflexivity).
  split; [exact H|].
  exact (deserialized_packet_well_formed VNone truncated_payload _ H).
Defined.

(** ** When serialize raises *)

Lemma pack_raise fmt vals e : pack fmt vals = Raise e -> e = StructError.
Proof.
  revert vals. induction fmt as [|w fmt IH]; intros [|v vals]; cbn;
    try congruence.
  unfold pack_uint. destruct ((0 <=? v) && (v <? 256 ^ Z.of_nat w)); cbn;
    [|congruence].
  destruct (pack fmt vals) eqn:E; cbn; [discriminate|].
  intros [= <-]. eapply IH, E.
Qed.

Lemma header_fits_Forall2 p :
  header_fits p <->
  Forall2 fits [4; 4; 1; 2; 2]%nat
    [seq_num p; ack_num p; flags p; window_size p; data_length p].
Proof.
  unfold header_fits. split.
  - intros (H0 & H1 & H2 & H3 & H4).
    repeat (apply List.Forall2_cons; [assumption|]). constructor.
  - intros H.
    repeat match goal with
           | H : Forall2 _ (_ :: _) (_ :: _) |- _ => apply Forall2_cons_1 in H as [? H]
           end.
    tauto.
Qed.

Lemma serialize_cases (p : Packet) :
  (header_fits p /\
   exists c wire,
     calculate_checksum p = Ok c /\ 0 <= c < 2 ^ 16 /\
     serialize p = Ok (wire, set_checksum p c) /\
     Z.of_nat (length wire) = HEADER_SIZE + Z.of_nat (length (data p)) /\
     drop 15 wire = data p /\
     is_corrupt p = Ok (negb (c =? checksum p)))
  \/
  (~ header_fits p /\
   calculate_checksum p = Raise StructError /\
   serialize p = Raise StructError /\
   is_corrupt p = Raise StructError).
Proof.
  unfold serialize, is_corrupt.
  destruct (calculate_checksum p) as [c|e] eqn:Ec; cbn [rbind].
  - left. pose proof (checksum_fits p c Ec) as Hc.
    unfold calculate_checksum in Ec.
    destruct (pack [4; 4; 1; 2; 2]%nat _) as [hdr|] eqn:Eh; cbn [rbind] in Ec;
      [|discriminate].
    apply pack_inv in Eh as [HF _].
    assert (Hfits : header_fits p) by (apply header_fits_Forall2, HF).
    split; [exact Hfits|]. exists c.
    exists (packed HEADER_FORMAT
              [seq_num p; ack_num p; flags p; window_size p; data_length p; c]
            ++ data p).
    split; [reflexivity|]. split; [exact Hc|].
    cbn [seq_num ack_num flags window_size data_length checksum set_checksum data].
    assert (HF6 : Forall2 fits HEADER_FORMAT
              [seq_num p; ack_num p; flags p; window_size p; data_length p; c]).
    { destruct Hfits as (H0 & H1 & H2 & H3 & H4). unfold HEADER_FORMAT.
      repeat (apply List.Forall2_cons; [assumption|]). constructor. }
    rewrite (pack_ok _ _ HF6). cbn [rbind].
    set (hdr6 := packed HEADER_FORMAT _).
    assert (Hlen : length hdr6 = 15%nat).
    { pose proof (length_packed HEADER_FORMAT
        [seq_num p; ack_num p; flags p; window_size p; data_length p; c] eq_refl) as H.
      fold hdr6 in H. change (calcsize HEADER_FORMAT) with 15 in H. lia. }
    split; [reflexivity|]. split.
    { rewrite length_app, Hlen. unfold HEADER_SIZE. lia. }
    split; [|reflexivity].
    rewrite drop_app_length' by exact Hlen. reflexivity.
  - right. unfold calculate_checksum in Ec.
    destruct (pack [4; 4; 1; 2; 2]%nat _) as [hdr|e'] eqn:Eh; cbn [rbind] in Ec;
      [discriminate|].
    injection Ec as <-. pose proof (pack_raise _ _ _ Eh) as ->.
    split; [|repeat split; reflexivity].
    intros Hfits. apply header_fits_Forall2 in Hfits.
    rewrite (pack_ok _ _ Hfits) in Eh. discriminate.
Qed.

(** X3: [serialize] (like [calculate_checksum] and [is_corrupt]) raises
    [struct.error] exactly when one of [seq_num], [ack_num], [flags],
    [window_size], [data_length] lies outside its unsigned wire range; the
    computed checksum never causes a failure.  When it succeeds the datagram
    has 15 bytes of header followed by the payload, whatever [data_length]
    says, and the object keeps its fields apart from the checksum. *)
Theorem serialize_raises_iff_out_of_range (p : Packet) :
  (header_fits p /\
   exists c wire,
     calculate_checksum p = Ok c /\ 0 <= c < 2 ^ 16 /\
     serialize p = Ok (wire, set_checksum p c) /\
     Z.of_nat (length wire) = HEADER_SIZE + Z.of_nat (length (data p)) /\
     drop 15 wire = data p /\
     is_corrupt p = Ok (negb (c =? checksum p)))
  \/
  (~ header_fits p /\
   calculate_checksum p = Raise StructError /\
   serialize p = Raise StructError /\
   is_corrupt p = Raise StructError).
Proof. exact (serialize_cases p). Qed.

(** ** From the wire and back *)

Lemma be_bytes_shift n v k :
  be_bytes n (v + k * 256 ^ Z.of_nat n) = be_bytes n v.
Proof.
  revert k. induction n as [|n IH]; intros k; [reflexivity|].
  cbn [be_bytes].
  assert (Hp : 0 < 256 ^ Z.of_nat n) by (apply Z.pow_pos_nonneg; lia).
  rewrite Nat2Z.inj_succ, Z.pow_succ_r by lia. f_equal.
  - replace (k * (256 * 256 ^ Z.of_nat n)) with (k * 256 * 256 ^ Z.of_nat n) by ring.
    rewrite Z.div_add by lia. unfold byte_of_Z.
    rewrite Z.mod_add by lia. reflexivity.
  - replace (k * (256 * 256 ^ Z.of_nat n)) with (k * 256 * 256 ^ Z.of_nat n) by ring.
    apply IH.
Qed.

Lemma be_bytes_be_value (bs : bytes) : be_bytes (length bs) (be_value bs) = bs.
Proof.
  induction bs as [|b bs IH]; [reflexivity|].
  rewrite be_value_cons. cbn [length be_bytes].
  pose proof (be_value_bound bs) as Hb.
  assert (Hp : 0 < 256 ^ Z.of_nat (length bs)) by (apply Z.pow_pos_nonneg; lia).
  f_equal.
  - rewrite Z.add_comm, Z.div_add by lia.
    rewrite Z.div_small by lia. cbn. apply byte_of_Z_of_byte.
  - rewrite Z.add_comm, be_bytes_shift. exact IH.
Qed.

Lemma packed_unpack_fields fmt (bs : bytes) :
  Z.of_nat (length bs) = calcsize fmt -> packed fmt (unpack_fields fmt bs) = bs.
Proof.
  unfold calcsize. revert bs. induction fmt as [|w fmt IH]; intros bs Hlen.
  - cbn in *. destruct bs; [reflexivity | cbn in Hlen; lia].
  - cbn [foldr] in Hlen. cbn [unpack_fields packed].
    assert (Hw : length (take w bs) = w) by (rewrite length_take; lia).
    rewrite <- Hw at 1. rewrite be_bytes_be_value.
    rewrite IH by (rewrite length_drop; lia).
    apply take_drop.
Qed.

(** X4: a buffer of at least 15 bytes whose length prefix matches the bytes
    after the header and whose checksum verifies is reproduced byte for byte
    when the packet [deserialize] built from it is serialized again, and the
    packet object is left as it was. *)
Theorem deserialize_serialize_roundtrip (raw : bytes) :
  HEADER_SIZE <= Z.of_nat (length raw) ->
  length_consistent raw ->
  is_corrupt (parsed raw) = Ok false ->
  serialize (parsed raw) = Ok (raw, parsed raw).
Proof.
  unfold HEADER_SIZE, length_consistent. intros Hlen Hcons Hok.
  destruct (parsed_well_formed raw) as [Hwf _].
  destruct (calculate_checksum_total _ Hwf) as [c Hc].
  unfold is_corrupt in Hok. rewrite Hc in Hok. cbn [rbind] in Hok.
  injection Hok as Hok. apply negb_false_iff, Z.eqb_eq in Hok.
  rewrite (serialize_well_formed _ _ Hwf Hc). subst c.
  assert (Hdata : data (parsed raw) = drop 15 raw).
  { cbn [parsed data]. apply take_ge. rewrite length_drop. unfold HEADER_SIZE in *. lia. }
  assert (Hdl : data_length (parsed raw) = wire_data_length raw).
  { destruct Hwf as [_ _ _ _ Hl _]. rewrite Hl, Hdata, length_drop.
    unfold HEADER_SIZE in *. lia. }
  f_equal. f_equal.
  - assert (Hf : [seq_num (parsed raw); ack_num (parsed raw); flags (parsed raw);
                  window_size (parsed raw); data_length (parsed raw);
                  wire_checksum raw]
                 = unpack_fields HEADER_FORMAT (take 15 raw))
      by (rewrite Hdl; reflexivity).
    rewrite Hf, Hdata, packed_unpack_fields.
    + apply take_drop.
    + rewrite length_take. change (calcsize HEADER_FORMAT) with 15. lia.
Qed.

Lemma deserialize_serialize_roundtrip_witness :
  let raw := packed HEADER_FORMAT [0; 0; 1; 5; 4; 0x3a60] ++ ascii_bytes "ABCD" in
  HEADER_SIZE <= Z.of_nat (length raw) /\
  length_consistent raw /\
  is_corrupt (parsed raw) = Ok false /\
  serialize (parsed raw) = Ok (raw, parsed raw).
Proof.
  cbn zeta.
  set (raw := packed HEADER_FORMAT [0; 0; 1; 5; 4; 0x3a60] ++ ascii_bytes "ABCD").
  assert (H1 : HEADER_SIZE <= Z.of_nat (length raw)) by (vm_compute; discriminate).
  assert (H2 : length_consistent raw) by (vm_compute; reflexivity).
  assert (H3 : is_corrupt (parsed raw) = Ok false) by (vm_compute; reflexivity).
  split; [exact H1|]. split; [exact H2|]. split; [exact H3|].
  exact (deserialize_serialize_roundtrip raw H1 H2 H3).
Defined.

(** ** Segmentation *)

Lemma groups_lookup fuel n (bs : bytes) i :
  (0 < n)%nat -> (length bs <= fuel)%nat ->
  groups fuel n bs !! i =
  if (i * n <? length bs)%nat then Some (take n (drop (i * n) bs)) else None.
Proof.
  intros Hn. revert bs i. induction fuel as [|fuel IH]; intros bs i Hlen.
  - destruct bs; [|cbn in Hlen; lia]. cbn.
    destruct (Nat.ltb_spec (i * n) 0); [lia | reflexivity].
  - destruct bs as [|b bs].
    { cbn. destruct (Nat.ltb_spec (i * n) 0); [lia | reflexivity]. }
    cbn [groups]. destruct i as [|i].
    + cbn [lookup list_lookup Nat.mul]. cbn [length].
      destruct (Nat.ltb_spec 0 (S (length bs))); [|lia]. reflexivity.
    + change ((take n (b :: bs) :: groups fuel n (drop n (b :: bs))) !! S i)
        with (groups fuel n (drop n (b :: bs)) !! i).
      rewrite IH by (rewrite length_drop; cbn [length] in *; lia).
      rewrite length_drop, drop_drop.
      replace (n + i * n)%nat with (S i * n)%nat by lia.
      destruct (Nat.ltb_spec (i * n) (length (b :: bs) - n));
        destruct (Nat.ltb_spec (S i * n) (length (b :: bs))); try lia; reflexivity.
Qed.

(** X5: [send_data] cuts its input into the slices [data[i*m:(i+1)*m]] for
    every [i] with [i*m < len(data)], [m] being [max_packet_size]: their
    concatenation is the input, none is empty and none is longer than [m].
    A zero [m] raises [ValueError]; a negative one gives no chunk at all. *)
Theorem split_chunks_segments (mps : Z) (data : bytes) :
  match split_chunks mps data with
  | Raise e => mps = 0 /\ e = ValueError
  | Ok chunks =>
      if mps <? 0 then chunks = []
      else
        0 < mps /\
        concat chunks = data /\
        (forall i : nat,
            chunks !! i =
            if (i * Z.to_nat mps <? length data)%nat
            then Some (take (Z.to_nat mps) (drop (i * Z.to_nat mps) data))
            else None) /\
        Forall (fun c => (0 < length c <= Z.to_nat mps)%nat) chunks
  end.
Proof.
  unfold split_chunks. destruct (Z.eqb_spec mps 0) as [->|Hne]; [split; reflexivity|].
  destruct (Z.ltb_spec mps 0) as [Hneg|Hpos]; [reflexivity|].
  assert (Hn : (0 < Z.to_nat mps)%nat) by lia.
  assert (Hlookup := fun i => groups_lookup (length data) (Z.to_nat mps) data i Hn
                               (Nat.le_refl _)).
  split; [lia|]. split; [apply concat_groups; lia|]. split; [exact Hlookup|].
  apply Forall_lookup. intros i c Hc. rewrite Hlookup in Hc.
  destruct (Nat.ltb_spec (i * Z.to_nat mps) (length data)); [|discriminate].
  injection Hc as <-. rewrite length_take, length_drop. lia.
Qed.

(** ** send_data as it is written *)

Lemma nothing_sent_step w0 s s' :
  sender_step send_data_create any_ack s s' ->
  nothing_sent w0 s -> nothing_sent w0 s'.
Proof.
  intros Hstep (Hn & Hb & Hs & Hr & Hw & Hpc).
  destruct Hstep as [s|s p _ _ _|s].
  - destruct s as [self w pc]. cbn [snd_state snd_world snd_pc] in *.
    unfold nothing_sent, send_data_step. cbn [snd_state snd_world snd_pc].
    destruct pc as [[|c cs]|c cs|p cs| | |e]; cbn [snd_state snd_world snd_pc];
      try (repeat split; assumption); try contradiction.
    + destruct (_ <? _); cbn [snd_state snd_world snd_pc]; repeat split; assumption.
    + destruct (_ <=? _); cbn [snd_state snd_world snd_pc]; repeat split; assumption.
  - unfold nothing_sent. cbn [snd_state snd_world snd_pc].
    unfold _handle_ack. cbn [base with_counters send_buffer next_seq_num].
    destruct (base (snd_state s) <=? ack_num p); cbn;
      rewrite ?drop_acked_filter, ?Hb; repeat split; assumption.
  - unfold nothing_sent, _check_timeouts_iter, timed_out, PyDict.items.
    cbn [snd_state snd_world snd_pc]. rewrite Hb.
    destruct (time_time (snd_world s)) as [t w1] eqn:Et.
    unfold time_time in Et. injection Et as _ <-. cbn.
    repeat split; assumption.
Qed.

(** X6: [send_data] never gets a packet out.  Its call of
    [create_data_packet] passes the sequence number, the chunk and the window
    size where the parameters are [type], [seq_num] and [data], so the
    constructor raises [AttributeError] for the first chunk: in every state
    the sender can reach, whatever acknowledgments arrive, nothing has been
    put on the wire, [next_seq_num] is 0 and the send buffer is empty.  With
    a positive window the exception leaves [send_data] at its second step;
    with a window of zero or less it polls for ever; with no chunk at all it
    returns at once. *)
Theorem send_data_sends_nothing
    (dest : addr) (W : Z) (T : time) (mps : Z) (w : World) (chunks : list bytes) :
  (forall s,
      sender_reachable send_data_create any_ack (sender_boot dest W T mps w chunks) s ->
      nothing_sent w s) /\
  (forall n,
      snd_pc (send_data_run (S (S n)) (sender_boot dest W T mps w chunks)) =
      match chunks with
      | [] => Returned
      | _ :: _ => if 0 <? W then Failed AttributeError else Admit chunks
      end).
Proof.
  split.
  - intros s Hr. induction Hr as [|s s' _ IH Hstep].
    + unfold nothing_sent, sender_boot. cbn. repeat split; reflexivity.
    + eapply nothing_sent_step; eassumption.
  - intros n. unfold send_data_run. rewrite !Nat.iter_succ_r.
    assert (Hfix : forall s, send_data_step send_data_create s = s ->
                             Nat.iter n (send_data_step send_data_create) s = s).
    { intros s Hs. induction n as [|k IH]; [reflexivity|].
      rewrite Nat.iter_succ, IH. exact Hs. }
    destruct chunks as [|c cs].
    + rewrite Hfix; reflexivity.
    + assert (Hstep1 : send_data_step send_data_create
                         (sender_boot dest W T mps w (c :: cs))
                       = if 0 <? W
                         then mkSys (sender_start (RDTSender_init dest W T mps)) w
                                    (Emit c cs)
                         else sender_boot dest W T mps w (c :: cs)).
      { unfold send_data_step, sender_boot. cbn. change (0 + W) with W.
        destruct (0 <? W); reflexivity. }
      rewrite Hstep1. destruct (0 <? W) eqn:EW.
      * rewrite Hfix; reflexivity.
      * rewrite Hstep1. rewrite Hfix; [reflexivity | exact Hstep1].
Qed.

(** ** Runs of acknowledgments *)

Lemma filter_outside_empty {V} lo hi (l : list (Z * V)) :
  hi < lo -> List.filter (outside lo hi) l = l.
Proof.
  intros H. induction l as [|[k v] l IH]; cbn; [reflexivity|].
  unfold outside at 1. cbn [fst].
  destruct (Z.leb_spec lo k); destruct (Z.leb_spec k hi); cbn; try lia;
    rewrite IH; reflexivity.
Qed.

Lemma outside_split {V} lo mid hi (e : Z * V) :
  lo <= mid <= hi + 1 ->
  outside lo hi e = outside lo (mid - 1) e && outside mid hi e.
Proof.
  intros H. unfold outside.
  destruct (Z.leb_spec lo e.1); destruct (Z.leb_spec e.1 hi);
    destruct (Z.leb_spec e.1 (mid - 1)); destruct (Z.leb_spec mid e.1);
    cbn; try reflexivity; lia.
Qed.

Lemma filter_outside_compose {V} lo mid hi (l : list (Z * V)) :
  lo <= mid <= hi + 1 ->
  List.filter (outside mid hi) (List.filter (outside lo (mid - 1)) l)
  = List.filter (outside lo hi) l.
Proof.
  intros H. induction l as [|e l IH]; cbn; [reflexivity|].
  rewrite (outside_split lo mid hi e H).
  destruct (outside lo (mid - 1) e); cbn; [|exact IH].
  destruct (outside mid hi e); rewrite IH; reflexivity.
Qed.

Lemma acked_up_to_max b x ps :
  acked_up_to (Z.max b x) ps = Z.max x (acked_up_to b ps).
Proof.
  unfold acked_up_to. induction ps as [|p ps IH]; cbn [fold_right]; [lia|].
  rewrite IH. lia.
Qed.

Lemma acked_up_to_ge b ps : b <= acked_up_to b ps.
Proof.
  unfold acked_up_to. induction ps as [|p ps IH]; cbn [fold_right]; lia.
Qed.

Lemma acked_up_to_le b ps m :
  acked_up_to b ps <= m <-> b <= m /\ Forall (fun p => ack_num p + 1 <= m) ps.
Proof.
  unfold acked_up_to. induction ps as [|p ps IH]; cbn [fold_right].
  - split; [intros H; split; [exact H | constructor] | tauto].
  - fold (acked_up_to b ps) in *. rewrite Forall_cons. split.
    + intros H. assert (H' : acked_up_to b ps <= m) by lia.
      apply IH in H'. split; [tauto|]. split; [lia | tauto].
    + intros (Hb & Hp & HF). assert (acked_up_to b ps <= m) by (apply IH; tauto). lia.
Qed.

Lemma acked_up_to_subset b (ps qs : list Packet) :
  (forall p, p ∈ ps -> p ∈ qs) -> acked_up_to b ps <= acked_up_to b qs.
Proof.
  intros Hsub. apply acked_up_to_le. split; [apply acked_up_to_ge|].
  apply Forall_forall. intros p Hin. apply Hsub in Hin.
  pose proof (proj1 (acked_up_to_le b qs (acked_up_to b qs)) (Z.le_refl _)) as [_ HF].
  rewrite Forall_forall in HF. apply HF, Hin.
Qed.

Lemma _handle_ack_step self p :
  let s' := _handle_ack self p in
  base s' = Z.max (base self) (ack_num p + 1) /\
  send_buffer s' = List.filter (outside (base self) (base s' - 1)) (send_buffer self) /\
  next_seq_num s' = next_seq_num self /\
  acks_received_count s' = acks_received_count self + 1 /\
  packets_sent s' = packets_sent self /\
  retransmissions s' = retransmissions self /\
  s_window_size s' = s_window_size self /\ dest_addr s' = dest_addr self /\
  s_timeout s' = s_timeout self /\ max_packet_size s' = max_packet_size self /\
  s_running s' = s_running self.
Proof.
  cbn zeta. unfold _handle_ack. cbn [base with_counters].
  destruct (Z.leb_spec (base self) (ack_num p)); cbn.
  - rewrite drop_acked_filter.
    replace (ack_num p + 1 - 1) with (ack_num p) by lia.
    repeat split; try reflexivity; lia.
  - rewrite filter_outside_empty by lia. repeat split; try reflexivity; lia.
Qed.

Lemma handle_acks_summary (self : RDTSender) (ps : list Packet) :
  let s' := handle_acks self ps in
  base s' = acked_up_to (base self) ps /\
  base self <= base s' /\
  send_buffer s' = List.filter (outside (base self) (base s' - 1)) (send_buffer self) /\
  next_seq_num s' = next_seq_num self /\
  acks_received_count s' = acks_received_count self + Z.of_nat (length ps) /\
  packets_sent s' = packets_sent self /\
  retransmissions s' = retransmissions self /\
  s_window_size s' = s_window_size self /\ dest_addr s' = dest_addr self /\
  s_timeout s' = s_timeout self /\ max_packet_size s' = max_packet_size self /\
  s_running s' = s_running self.
Proof.
  cbn zeta. unfold handle_acks. revert self.
  induction ps as [|p ps IH]; intros self.
  - cbn. rewrite filter_outside_empty by lia. repeat split; try reflexivity; lia.
  - cbn [fold_left acked_up_to fold_right length].
    specialize (IH (_handle_ack self p)).
    pose proof (_handle_ack_step self p) as Hs. cbn zeta in Hs.
    destruct Hs as (Hb & Hbuf & Hn & Hc & Hps & Hr & Hw & Hd & Ht & Hm & Hrun).
    destruct IH as (IHb & IHle & IHbuf & IHn & IHc & IHps & IHr & IHw & IHd & IHt & IHm & IHrun).
    fold (acked_up_to (base (_handle_ack self p)) ps) in IHb.
    rewrite Hb, acked_up_to_max in IHb.
    fold (acked_up_to (base self) ps).
    pose proof (acked_up_to_ge (base self) ps) as Hge.
    split; [rewrite IHb; lia|]. split; [lia|]. split.
    { rewrite IHbuf, Hbuf. apply filter_outside_compose. lia. }
    repeat split; try congruence. rewrite IHc, Hc. lia.
Qed.

(** X7: after any run of acknowledgments [base] is the larger of its old
    value and one more than the highest number acknowledged, so it never
    decreases; the buffer has lost exactly the entries between the old [base]
    and the new one, the others keeping their order; every acknowledgment is
    counted and nothing else in the sender changes. *)
Theorem handle_acks_closed_form (self : RDTSender) (ps : list Packet) :
  let s' := handle_acks self ps in
  base s' = acked_up_to (base self) ps /\
  base self <= base s' /\
  send_buffer s' = List.filter (outside (base self) (base s' - 1)) (send_buffer self) /\
  next_seq_num s' = next_seq_num self /\
  acks_received_count s' = acks_received_count self + Z.of_nat (length ps) /\
  packets_sent s' = packets_sent self /\
  retransmissions s' = retransmissions self /\
  s_window_size s' = s_window_size self /\ dest_addr s' = dest_addr self /\
  s_timeout s' = s_timeout self /\ max_packet_size s' = max_packet_size self /\
  s_running s' = s_running self.
Proof. exact (handle_acks_summary self ps). Qed.

Lemma sender_eq (s t : RDTSender) :
  dest_addr s = dest_addr t -> s_window_size s = s_window_size t ->
  s_timeout s = s_timeout t -> max_packet_size s = max_packet_size t ->
  base s = base t -> next_seq_num s = next_seq_num t ->
  send_buffer s = send_buffer t -> s_running s = s_running t ->
  packets_sent s = packets_sent t -> retransmissions s = retransmissions t ->
  acks_received_count s = acks_received_count t -> s = t.
Proof. destruct s, t; cbn; intros; subst; reflexivity. Qed.

(** X8: the state a run of acknowledgments leaves depends only on which
    acknowledgment numbers occur in it and on how many packets there were:
    two runs of the same length with the same packets in any order, repeated
    or not, leave the same sender. *)
Theorem handle_acks_order_irrelevant (self : RDTSender) (ps qs : list Packet) :
  (forall p, p ∈ ps <-> p ∈ qs) ->
  length ps = length qs ->
  handle_acks self ps = handle_acks self qs.
Proof.
  intros Hset Hlen.
  pose proof (handle_acks_summary self ps) as Hp.
  pose proof (handle_acks_summary self qs) as Hq. cbn zeta in *.
  destruct Hp as (Hb & _ & Hbuf & Hn & Hc & Hps & Hr & Hw & Hd & Ht & Hm & Hrun).
  destruct Hq as (Hb' & _ & Hbuf' & Hn' & Hc' & Hps' & Hr' & Hw' & Hd' & Ht' & Hm' & Hrun').
  assert (Hbase : acked_up_to (base self) ps = acked_up_to (base self) qs).
  { apply Z.le_antisymm; apply acked_up_to_subset; intros p Hin; apply Hset, Hin. }
  apply sender_eq; try congruence.
Qed.

Lemma handle_acks_order_irrelevant_witness :
  let a0 := ack_zero in
  let a3 := sealed (mkPacket 0 3 PacketType.ACK 5 [] 0 0) in
  (forall p, p ∈ [a0; a3; a0] <-> p ∈ [a3; a3; a0]) /\
  length [a0; a3; a0] = length [a3; a3; a0] /\
  handle_acks overdue_sender [a0; a3; a0] = handle_acks overdue_sender [a3; a3; a0].
Proof.
  cbn zeta.
  assert (H : forall p, p ∈ [ack_zero; sealed (mkPacket 0 3 PacketType.ACK 5 [] 0 0); ack_zero]
                    <-> p ∈ [sealed (mkPacket 0 3 PacketType.ACK 5 [] 0 0);
                             sealed (mkPacket 0 3 PacketType.ACK 5 [] 0 0); ack_zero]).
  { intros p. rewrite !elem_of_cons, !elem_of_nil. tauto. }
  split; [exact H|]. split; [reflexivity|].
  exact (handle_acks_order_irrelevant overdue_sender _ _ H eq_refl).
Defined.

(** ** One pass of the timeout scanner *)

Lemma retransmit_one_counts self w entry :
  let '(self', w') := retransmit_one (self, w) entry in
  retransmissions self' = retransmissions self + 1 /\
  (exists extra, wire w' = wire w ++ extra /\ (length extra <= 1)%nat /\
                 packets_sent self' = packets_sent self + Z.of_nat (length extra)) /\
  clock_reads w' = S (clock_reads w) /\
  acks_received_count self' = acks_received_count self /\
  map fst (send_buffer self') = map fst (PyDict.set (send_buffer self) entry.1 (entry.2, 0)).
Proof.
  destruct entry as [k p]. unfold retransmit_one, _send_packet.
  destruct (serialize p) as [[b p']|].
  - unfold sock_sendto. destruct (sendto_fails w (sendto_calls w)); cbn.
    + split; [reflexivity|]. split.
      { exists []. rewrite app_nil_r. cbn. repeat split; lia. }
      repeat split; try reflexivity.
      induction (send_buffer self) as [|[k0 v0] d IH]; cbn; [reflexivity|].
      destruct (k0 =? k); cbn; congruence.
    + split; [reflexivity|]. split.
      { eexists [_]. cbn. repeat split; lia. }
      repeat split; try reflexivity.
      induction (send_buffer self) as [|[k0 v0] d IH]; cbn; [reflexivity|].
      destruct (k0 =? k); cbn; congruence.
  - cbn. split; [reflexivity|]. split.
    { exists []. rewrite app_nil_r. cbn. repeat split; lia. }
    repeat split; try reflexivity.
    induction (send_buffer self) as [|[k0 v0] d IH]; cbn; [reflexivity|].
    destruct (k0 =? k); cbn; congruence.
Qed.

Lemma retransmit_fold_counts l self w :
  let '(self', w') := fold_left retransmit_one l (self, w) in
  retransmissions self' = retransmissions self + Z.of_nat (length l) /\
  (exists extra, wire w' = wire w ++ extra /\ (length extra <= length l)%nat /\
                 packets_sent self' = packets_sent self + Z.of_nat (length extra)) /\
  clock_reads w' = (clock_reads w + length l)%nat /\
  acks_received_count self' = acks_received_count self.
Proof.
  revert self w. induction l as [|e l IH]; intros self w.
  - cbn. split; [lia|]. split.
    { exists []. rewrite app_nil_r. cbn. repeat split; lia. }
    split; [lia | reflexivity].
  - cbn [fold_left length].
    pose proof (retransmit_one_counts self w e) as H1.
    destruct (retransmit_one (self, w) e) as [s1 w1].
    destruct H1 as (Hr1 & (x1 & Hw1 & Hl1 & Hp1) & Hc1 & Ha1 & _).
    specialize (IH s1 w1). destruct (fold_left retransmit_one l (s1, w1)) as [s2 w2].
    destruct IH as (Hr2 & (x2 & Hw2 & Hl2 & Hp2) & Hc2 & Ha2).
    split; [lia|]. split.
    { exists (x1 ++ x2). rewrite Hw2, Hw1, <- app_assoc, length_app.
      repeat split; lia. }
    split; [lia | congruence].
Qed.

(** X9: one pass of the timeout scanner resends the entries whose age exceeds
    the timeout strictly, and counts every one of them in [retransmissions]
    whether or not its datagram could be sent; [packets_sent] grows by the
    number of datagrams that did reach the socket.  The clock is read once
    for the pass and once more per resent entry.  With no overdue entry the
    sender is left exactly as it was and nothing is sent. *)
Theorem check_timeouts_pass_counts (self : RDTSender) (w : World) :
  let now := time_of w (clock_reads w) in
  let overdue := timed_out self now in
  let '(self', w') := _check_timeouts_iter self w in
  retransmissions self' = retransmissions self + Z.of_nat (length overdue) /\
  (exists extra,
      wire w' = wire w ++ extra /\ (length extra <= length overdue)%nat /\
      packets_sent self' = packets_sent self + Z.of_nat (length extra)) /\
  clock_reads w' = (clock_reads w + 1 + length overdue)%nat /\
  acks_received_count self' = acks_received_count self /\
  (forall k p, (k, p) ∈ overdue <->
               exists ts, (k, (p, ts)) ∈ send_buffer self /\ s_timeout self < now - ts) /\
  match overdue with
  | [] => self' = self /\ wire w' = wire w
  | _ :: _ => True
  end.
Proof.
  cbn zeta. unfold _check_timeouts_iter, time_time.
  set (now := time_of w (clock_reads w)).
  set (w1 := mkWorld _ _ _ _ _).
  pose proof (retransmit_fold_counts (timed_out self now) self w1) as H.
  assert (Hnil : timed_out self now = [] ->
                 fold_left retransmit_one (timed_out self now) (self, w1) = (self, w1))
    by (intros ->; reflexivity).
  destruct (fold_left retransmit_one (timed_out self now) (self, w1)) as [s2 w2].
  destruct H as (Hr & Hx & Hc & Ha).
  split; [exact Hr|]. split; [exact Hx|]. split; [subst w1; cbn in Hc; lia|].
  split; [exact Ha|]. split.
  - intros k p. unfold timed_out, PyDict.items. rewrite list_elem_of_omap. split.
    + intros ([k' [p' ts]] & Hin & Hsel).
      destruct (Z.ltb_spec (s_timeout self) (now - ts)); [|discriminate].
      injection Hsel as -> ->. eauto.
    + intros (ts & Hin & Hlt). exists (k, (p, ts)). split; [exact Hin|].
      destruct (Z.ltb_spec (s_timeout self) (now - ts)); [reflexivity | lia].
  - destruct (timed_out self now); [|exact I].
    specialize (Hnil eq_refl). injection Hnil as -> ->. split; reflexivity.
Qed.

(** ** The receiver, whatever it is given *)

Lemma deliveries_app e1 e2 : deliveries (e1 ++ e2) = deliveries e1 ++ deliveries e2.
Proof. unfold deliveries. apply omap_app. Qed.

Lemma deliveries_cons s c evs :
  deliveries (Delivered s c :: evs) = (s, c) :: deliveries evs.
Proof. reflexivity. Qed.

Lemma acks_app e1 e2 : acks (e1 ++ e2) = acks e1 ++ acks e2.
Proof. unfold acks. apply omap_app. Qed.

Lemma deliver_in_order_summary fuel self :
  let '(self', evs) := deliver_in_order fuel self in
  expected_seq_num self <= expected_seq_num self' /\
  map fst (deliveries evs)
    = seqZ (expected_seq_num self) (expected_seq_num self' - expected_seq_num self) /\
  acks evs = [] /\
  data_queue self' = data_queue self ++ map snd (deliveries evs) /\
  (forall k, is_Some (receive_buffer self !! k) ->
             k < expected_seq_num self' \/ is_Some (receive_buffer self' !! k)) /\
  (keys_from (expected_seq_num self) (receive_buffer self) ->
   keys_from (expected_seq_num self') (receive_buffer self')) /\
  Z.of_nat (size (receive_buffer self'))
    + (expected_seq_num self' - expected_seq_num self)
    = Z.of_nat (size (receive_buffer self)) /\
  packets_received self' = packets_received self /\
  acks_sent self' = acks_sent self /\
  duplicates_received self' = duplicates_received self /\
  r_window_size self' = r_window_size self.
Proof.
  revert self. induction fuel as [|fuel IH]; intros self.
  - cbn. rewrite Z.sub_diag, app_nil_r. repeat split; try reflexivity; try lia; auto.
  - cbn [deliver_in_order].
    destruct (receive_buffer self !! expected_seq_num self) as [pkt|] eqn:E.
    2:{ cbn. rewrite Z.sub_diag, app_nil_r. repeat split; try reflexivity; try lia; auto. }
    set (self1 := with_reassembly _ _ _ _).
    specialize (IH self1). destruct (deliver_in_order fuel self1) as [s2 evs].
    destruct IH as (Hle & Hseq & Hack & Hq & Hkeep & Hkeys & Hsz & Hc1 & Hc2 & Hc3 & Hc4).
    subst self1. cbn [expected_seq_num data_queue receive_buffer packets_received
                      acks_sent duplicates_received r_window_size with_reassembly] in *.
    split; [lia|]. split.
    { rewrite deliveries_cons, map_cons. cbn [fst].
      rewrite (seqZ_cons (expected_seq_num self)) by lia. f_equal.
      rewrite Hseq. f_equal; lia. }
    split; [exact Hack|]. split.
    { rewrite deliveries_cons, map_cons. cbn [snd].
      rewrite Hq, <- app_assoc. reflexivity. }
    split.
    { intros k Hk. destruct (Z.eq_dec k (expected_seq_num self)) as [->|Hne]; [left; lia|].
      apply Hkeep. rewrite lookup_delete_ne by congruence. exact Hk. }
    split.
    { intros Hfrom. apply Hkeys. intros k Hk.
      destruct (Z.eq_dec k (expected_seq_num self)) as [->|Hne].
      - rewrite lookup_delete_eq in Hk. destruct Hk; discriminate.
      - rewrite lookup_delete_ne in Hk by congruence. specialize (Hfrom k Hk). lia. }
    split.
    { pose proof (map_size_delete_Some (expected_seq_num self) (receive_buffer self)
                    (mk_is_Some _ _ E)) as Hdel.
      assert (size (receive_buffer self) <> 0%nat).
      { intros H0. apply map_size_empty_inv in H0. rewrite H0, lookup_empty in E.
        discriminate. }
      lia. }
    repeat split; assumption.
Qed.

Lemma _send_ack_summary self w a dest :
  let '(self', w', evs) := _send_ack self w a dest in
  expected_seq_num self' = expected_seq_num self /\
  receive_buffer self' = receive_buffer self /\
  data_queue self' = data_queue self /\
  packets_received self' = packets_received self /\
  duplicates_received self' = duplicates_received self /\
  r_window_size self' = r_window_size self /\
  deliveries evs = [] /\
  (acks evs = [] \/ acks evs = [Z.max 0 a]) /\
  acks_sent self' = acks_sent self + Z.of_nat (length (acks evs)).
Proof.
  unfold _send_ack.
  assert (Ha : (if a <? 0 then 0 else a) = Z.max 0 a)
    by (destruct (Z.ltb_spec a 0); lia).
  rewrite Ha.
  destruct (create_ack_packet _ _) as [p|]; [|cbn; repeat split; auto; lia].
  destruct (serialize p) as [[b p']|]; [|cbn; repeat split; auto; lia].
  destruct (sock_sendto w b dest) as [[[]|] w']; cbn; repeat split; auto; lia.
Qed.

Lemma nondecreasing_snoc l x :
  nondecreasing l -> Forall (fun a => a <= x) l -> nondecreasing (l ++ [x]).
Proof.
  intros Hl HF i j a b Hij Ha Hb.
  destruct (decide (j < length l)%nat) as [Hj|Hj].
  - rewrite lookup_app_l in Ha, Hb by lia. exact (Hl i j a b Hij Ha Hb).
  - assert (b = x) as ->.
    { rewrite lookup_app_r in Hb by lia.
      destruct (j - length l)%nat; cbn in Hb; [congruence | discriminate]. }
    destruct (decide (i < length l)%nat) as [Hi|Hi].
    + rewrite lookup_app_l in Ha by lia. rewrite Forall_lookup in HF. eapply HF, Ha.
    + rewrite lookup_app_r in Ha by lia.
      destruct (i - length l)%nat; cbn in Ha; [injection Ha as ->; lia | discriminate].
Qed.

Lemma _handle_data_packet_keeps_inv self w p a out :
  receiver_inv self out ->
  match _handle_data_packet self w p a with
  | Raise _ => True
  | Ok (self', _, evs) =>
      receiver_inv self' (out ++ evs) /\
      expected_seq_num self <= expected_seq_num self' /\
      receive_buffer self' !! expected_seq_num self' = None /\
      r_window_size self' = r_window_size self
  end.
Proof.
  intros (He & Hkeys & Hlen & Hseq & Hq & Hacks & Hmono & Hsent & Hdup & Hcnt).
  assert (Hnone : receive_buffer self !! expected_seq_num self = None).
  { destruct (receive_buffer self !! expected_seq_num self) eqn:E; [|reflexivity].
    specialize (Hkeys _ (mk_is_Some _ _ E)). lia. }
  unfold _handle_data_packet.
  destruct (is_corrupt p) as [[|]|]; cbn [rbind]; [| |exact I].
  { rewrite app_nil_r. split; [|split; [lia | split; [exact Hnone | reflexivity]]].
    repeat split; assumption || lia. }
  cbn [expected_seq_num with_stats packets_received acks_sent
       duplicates_received receive_buffer data_queue].
  destruct (Z.ltb_spec (seq_num p) (expected_seq_num self)) as [Hlt|Hge].
  - match goal with |- context [_send_ack ?s ?w ?n ?d] =>
      pose proof (_send_ack_summary s w n d) as H;
      destruct (_send_ack s w n d) as [[s' w'] evs] end.
    cbn [expected_seq_num with_stats packets_received acks_sent
         duplicates_received receive_buffer data_queue r_window_size] in H.
    destruct H as (H1 & H2 & H3 & H4 & H5 & H6 & H7 & H8 & H9).
    rewrite H1, H2. split; [|split; [lia | split; [exact Hnone | exact H6]]].
    unfold receiver_inv. rewrite deliveries_app, acks_app, H7, app_nil_r, H1, H2, H3, H4, H5, H9.
    rewrite length_app.
    split; [exact He|]. split; [exact Hkeys|]. split; [exact Hlen|].
    split; [exact Hseq|]. split; [exact Hq|]. split.
    { apply Forall_app. split; [exact Hacks|].
      destruct H8 as [-> | ->]; [constructor|]. repeat constructor; lia. }
    split.
    { destruct H8 as [-> | ->]; [rewrite app_nil_r; exact Hmono|].
      apply nondecreasing_snoc; [exact Hmono|].
      eapply Forall_impl; [exact Hacks|]. cbn. intros x Hx. lia. }
    repeat split; lia.
  - set (self1 := with_reassembly _ _ _ _).
    pose proof (deliver_in_order_summary (size (receive_buffer self1)) self1) as Hd.
    pose proof (deliver_in_order_exits (size (receive_buffer self1)) self1 (Nat.le_refl _)) as Hexit.
    destruct (deliver_in_order (size (receive_buffer self1)) self1) as [s2 evs].
    cbn [fst] in Hexit.
    destruct Hd as (Hle & Hdseq & Hdack & Hdq & _ & Hdkeys & Hdsz & Hc1 & Hc2 & Hc3 & Hc4).
    subst self1. cbn [expected_seq_num data_queue receive_buffer packets_received
                      acks_sent duplicates_received r_window_size with_reassembly
                      with_stats] in *.
    assert (Hkeys2 : keys_from (expected_seq_num s2) (receive_buffer s2)).
    { apply Hdkeys. intros k Hk.
      destruct (Z.eq_dec k (seq_num p)) as [->|Hne]; [lia|].
      rewrite lookup_insert_ne in Hk by congruence. specialize (Hkeys k Hk). lia. }
    match goal with |- context [_send_ack ?s ?w ?n ?d] =>
      pose proof (_send_ack_summary s w n d) as H;
      destruct (_send_ack s w n d) as [[s' w'] evs'] end.
    destruct H as (H1 & H2 & H3 & H4 & H5 & H6 & H7 & H8 & H9).
    rewrite H1, H2.
    split; [|split; [lia | split; [exact Hexit | congruence]]].
    unfold receiver_inv.
    rewrite !deliveries_app, !acks_app, H7, Hdack, !app_nil_r, app_nil_l.
    rewrite H1, H2, H3, H4, H5, H9, Hdq, Hc1, Hc2, Hc3, !map_app, !length_app, length_map.
    split; [lia|]. split.
    { intros k Hk. specialize (Hkeys2 k Hk).
      destruct (Z.eq_dec k (expected_seq_num s2)) as [->|]; [|lia].
      rewrite Hexit in Hk. destruct Hk; discriminate. }
    split.
    { rewrite <- (length_map fst (deliveries evs)), Hdseq, length_seqZ. lia. }
    split.
    { rewrite Hseq, Hdseq. symmetry.
      replace (expected_seq_num s2) with
        (expected_seq_num self + (expected_seq_num s2 - expected_seq_num self)) at 1 by lia.
      rewrite seqZ_app by lia. reflexivity. }
    split; [rewrite Hq; reflexivity|]. split.
    { apply Forall_app. split.
      - eapply Forall_impl; [exact Hacks|]. cbn. intros x Hx. lia.
      - destruct H8 as [-> | ->]; [constructor|]. repeat constructor; lia. }
    split.
    { destruct H8 as [-> | ->]; [rewrite app_nil_r; exact Hmono|].
      apply nondecreasing_snoc; [exact Hmono|].
      eapply Forall_impl; [exact Hacks|]. cbn. intros x Hx. lia. }
    assert (Hn : Z.of_nat (length (deliveries evs))
                 = expected_seq_num s2 - expected_seq_num self).
    { rewrite <- (length_map fst (deliveries evs)), Hdseq, length_seqZ. lia. }
    pose proof (map_size_insert (seq_num p) p (receive_buffer self)) as Hins.
    assert (Hsize : (size (<[seq_num p:=p]> (receive_buffer self))
                     <= S (size (receive_buffer self)))%nat).
    { rewrite Hins. destruct (receive_buffer self !! seq_num p); cbn; lia. }
    repeat split; lia.
Qed.

Lemma handle_all_receiver_inv arrivals self w out :
  receiver_inv self out ->
  let '(self', _, out') :=
    fold_left (fun '(s, w, out) '(p, a) =>
                 match _handle_data_packet s w p a with
                 | Raise _ => (s, w, out)
                 | Ok (s', w', out') => (s', w', out ++ out')
                 end) arrivals (self, w, out) in
  receiver_inv self' out' /\
  expected_seq_num self <= expected_seq_num self' /\
  r_window_size self' = r_window_size self.
Proof.
  revert self w out. induction arrivals as [|[p a] arrivals IH]; intros self w out Hinv.
  - cbn. split; [exact Hinv|]. split; [lia | reflexivity].
  - cbn [fold_left].
    pose proof (_handle_data_packet_keeps_inv self w p a out Hinv) as H.
    destruct (_handle_data_packet self w p a) as [[[s1 w1] evs]|].
    + destruct H as (Hinv1 & Hle & _ & Hw).
      specialize (IH s1 w1 (out ++ evs) Hinv1).
      destruct (fold_left _ arrivals _) as [[s2 w2] out2].
      destruct IH as (H1 & H2 & H3). split; [exact H1|]. split; [lia | congruence].
    + apply IH, Hinv.
Qed.

Lemma receiver_inv_init W : receiver_inv (RDTReceiver_init W) [].
Proof.
  unfold receiver_inv. cbn.
  split; [lia|]. split.
  { intros k [x Hk]. rewrite lookup_empty in Hk. discriminate. }
  split; [reflexivity|]. split; [reflexivity|]. split; [reflexivity|].
  split; [constructor|]. split.
  { intros i j a b _ Ha. rewrite lookup_nil in Ha. discriminate. }
  rewrite map_size_empty. repeat split; lia.
Qed.

(** X10: whatever packets the receiver is given (valid or not, of this
    transfer or not), it has delivered one payload for each of the sequence
    numbers 0 to [expected_seq_num - 1], in that order, and these payloads are
    what its delivery queue received; its buffer holds only sequence numbers
    above the expected one; and the packets it counted cover the deliveries,
    the buffered packets and the duplicates. *)
Theorem receiver_bookkeeping (W : Z) (w : World) (arrivals : list (Packet * addr)) :
  let '(self, _, evs) := handle_all (RDTReceiver_init W) w arrivals in
  0 <= expected_seq_num self /\
  map fst (deliveries evs) = seqZ 0 (expected_seq_num self) /\
  data_queue self = map snd (deliveries evs) /\
  (forall k, is_Some (receive_buffer self !! k) -> expected_seq_num self < k) /\
  0 <= duplicates_received self /\
  expected_seq_num self + Z.of_nat (size (receive_buffer self))
    + duplicates_received self <= packets_received self /\
  r_window_size self = W.
Proof.
  unfold handle_all.
  pose proof (handle_all_receiver_inv arrivals _ w [] (receiver_inv_init W)) as H.
  destruct (fold_left _ arrivals _) as [[self w'] evs].
  destruct H as ((He & Hkeys & Hlen & Hseq & Hq & Hacks & Hmono & Hsent & Hdup & Hcnt) & _ & HW).
  split; [exact He|]. split; [exact Hseq|]. split; [exact Hq|]. split.
  { intros k Hk. specialize (Hkeys k Hk). lia. }
  split; [lia|]. split; [exact Hcnt | exact HW].
Qed.

(** X11: the acknowledgment numbers a receiver sends never go down, each is
    between 0 and the last sequence number delivered (0 when nothing has been
    delivered), and [acks_sent] counts exactly the acknowledgments that
    reached the socket. *)
Theorem ack_numbers_never_decrease (W : Z) (w : World) (arrivals : list (Packet * addr)) :
  let '(self, _, evs) := handle_all (RDTReceiver_init W) w arrivals in
  nondecreasing (acks evs) /\
  Forall (fun a => 0 <= a <= Z.max 0 (expected_seq_num self - 1)) (acks evs) /\
  acks_sent self = Z.of_nat (length (acks evs)).
Proof.
  unfold handle_all.
  pose proof (handle_all_receiver_inv arrivals _ w [] (receiver_inv_init W)) as H.
  destruct (fold_left _ arrivals _) as [[self w'] evs].
  destruct H as ((He & Hkeys & Hlen & Hseq & Hq & Hacks & Hmono & Hsent & Hdup & Hcnt) & _).
  split; [exact Hmono|]. split; [exact Hacks | exact Hsent].
Qed.

(** X12: a packet that is corrupt is dropped without a trace: nothing is
    counted, stored, delivered or acknowledged.  A valid packet below the
    expected sequence number is counted as received and as a duplicate,
    changes neither the expected number nor the buffer nor the queue, and is
    answered by at most one acknowledgment, of number
    [max(0, expected_seq_num - 1)]. *)
Theorem packets_that_deliver_nothing
    (self : RDTReceiver) (w : World) (p : Packet) (a : addr) (corrupt : bool) :
  is_corrupt p = Ok corrupt ->
  (corrupt = true \/ seq_num p < expected_seq_num self) ->
  exists self' w' evs,
    _handle_data_packet self w p a = Ok (self', w', evs) /\
    expected_seq_num self' = expected_seq_num self /\
    receive_buffer self' = receive_buffer self /\
    data_queue self' = data_queue self /\
    deliveries evs = [] /\
    if corrupt
    then self' = self /\ w' = w /\ evs = []
    else
      packets_received self' = packets_received self + 1 /\
      duplicates_received self' = duplicates_received self + 1 /\
      (evs = [] \/ evs = [AckSent (Z.max 0 (expected_seq_num self - 1)) a]) /\
      acks_sent self' = acks_sent self + Z.of_nat (length evs).
Proof.
  intros Hc Hcase. unfold _handle_data_packet. rewrite Hc. cbn [rbind].
  destruct corrupt.
  { exists self, w, []. repeat split; reflexivity. }
  destruct Hcase as [Hf|Hlt]; [discriminate|].
  cbn [expected_seq_num with_stats].
  destruct (Z.ltb_spec (seq_num p) (expected_seq_num self)) as [_|]; [|lia].
  unfold _send_ack.
  cbn [expected_seq_num with_stats r_window_size packets_received acks_sent
       duplicates_received].
  replace (if Z.max 0 (expected_seq_num self - 1) <? 0 then 0
           else Z.max 0 (expected_seq_num self - 1))
    with (Z.max 0 (expected_seq_num self - 1))
    by (destruct (Z.ltb_spec (Z.max 0 (expected_seq_num self - 1)) 0); lia).
  destruct (create_ack_packet _ _) as [q|];
    [|eexists _, _, _; split; [reflexivity|]; cbn; repeat split; auto; lia].
  destruct (serialize q) as [[b q']|];
    [|eexists _, _, _; split; [reflexivity|]; cbn; repeat split; auto; lia].
  destruct (sock_sendto w b a) as [[[]|] w1];
    eexists _, _, _; (split; [reflexivity|]); cbn; repeat split; auto; lia.
Qed.

Lemma packets_that_deliver_nothing_witness :
  let p := sealed (data_packet 0 (ascii_bytes "ABCD")) in
  let self := mkReceiver 5 1 ∅ [ascii_bytes "ABCD"] true 1 1 0 in
  is_corrupt p = Ok false /\
  (false = true \/ seq_num p < expected_seq_num self) /\
  exists self' w' evs,
    _handle_data_packet self quiet_world p localhost = Ok (self', w', evs) /\
    expected_seq_num self' = expected_seq_num self /\
    receive_buffer self' = receive_buffer self /\
    data_queue self' = data_queue self /\
    deliveries evs = [] /\
    packets_received self' = packets_received self + 1 /\
    duplicates_received self' = duplicates_received self + 1 /\
    (evs = [] \/ evs = [AckSent (Z.max 0 (expected_seq_num self - 1)) localhost]) /\
    acks_sent self' = acks_sent self + Z.of_nat (length evs).
Proof.
  cbn zeta.
  assert (H1 : is_corrupt (sealed (data_packet 0 (ascii_bytes "ABCD"))) = Ok false)
    by (vm_compute; reflexivity).
  assert (H2 : false = true \/
               seq_num (sealed (data_packet 0 (ascii_bytes "ABCD")))
               < expected_seq_num (mkReceiver 5 1 ∅ [ascii_bytes "ABCD"] true 1 1 0))
    by (right; vm_compute; reflexivity).
  split; [exact H1|]. split; [exact H2|].
  exact (packets_that_deliver_nothing _ quiet_world _ localhost false H1 H2).
Defined.

(** ** Every chunk arrives: every chunk is delivered *)

Lemma _handle_data_packet_intact self w p a :
  is_corrupt p = Ok false ->
  exists self' w' evs,
    _handle_data_packet self w p a = Ok (self', w', evs) /\
    (forall s, s < expected_seq_num self \/ is_Some (receive_buffer self !! s)
               \/ s = seq_num p ->
               s < expected_seq_num self' \/ is_Some (receive_buffer self' !! s)).
Proof.
  intros Hc. unfold _handle_data_packet. rewrite Hc. cbn [rbind].
  cbn [expected_seq_num with_stats packets_received acks_sent
       duplicates_received receive_buffer data_queue].
  destruct (Z.ltb_spec (seq_num p) (expected_seq_num self)) as [Hlt|Hge].
  - match goal with |- context [_send_ack ?s ?w ?n ?d] =>
      pose proof (_send_ack_summary s w n d) as H;
      destruct (_send_ack s w n d) as [[s' w'] evs] end.
    cbn [expected_seq_num with_stats receive_buffer] in H.
    destruct H as (H1 & H2 & _).
    exists s', w', evs. split; [reflexivity|]. rewrite H1, H2.
    intros s [Hs | [Hs | ->]]; [left; exact Hs | right; exact Hs | left; exact Hlt].
  - set (self1 := with_reassembly _ _ _ _).
    pose proof (deliver_in_order_summary (size (receive_buffer self1)) self1) as Hd.
    destruct (deliver_in_order (size (receive_buffer self1)) self1) as [s2 evs].
    destruct Hd as (Hle & _ & _ & _ & Hkeep & _).
    subst self1. cbn [expected_seq_num receive_buffer with_reassembly with_stats] in *.
    match goal with |- context [_send_ack ?s ?w ?n ?d] =>
      pose proof (_send_ack_summary s w n d) as H;
      destruct (_send_ack s w n d) as [[s' w'] evs'] end.
    destruct H as (H1 & H2 & _).
    exists s', w', (evs ++ evs'). split; [reflexivity|]. rewrite H1, H2.
    intros s [Hs | [Hs | ->]].
    + left. lia.
    + apply Hkeep. destruct (Z.eq_dec s (seq_num p)) as [->|Hne].
      * rewrite lookup_insert_eq. eauto.
      * rewrite lookup_insert_ne by congruence. exact Hs.
    + apply Hkeep. rewrite lookup_insert_eq. eauto.
Qed.

(** A packet that does not pass the checksum test leaves the receiver, the
    world and the event log as they were. *)
Lemma _handle_data_packet_rejected self w p a :
  is_corrupt p <> Ok false ->
  match _handle_data_packet self w p a with
  | Raise _ => True
  | Ok r => r = (self, w, [])
  end.
Proof.
  intros Hc. unfold _handle_data_packet.
  destruct (is_corrupt p) as [[|]|]; cbn [rbind]; [reflexivity | congruence | exact I].
Qed.

Lemma is_corrupt_dec p : {is_corrupt p = Ok false} + {is_corrupt p <> Ok false}.
Proof. destruct (is_corrupt p) as [[|]|]; (left; reflexivity) || (right; discriminate). Qed.

Lemma handle_all_checked_inv chunks arrivals self w out :
  reassembly_inv chunks self (deliveries out) ->
  Forall (fun pa => is_corrupt pa.1 = Ok false -> from_sender chunks pa.1) arrivals ->
  let '(self', _, out') :=
    fold_left (fun '(s, w, out) '(p, a) =>
                 match _handle_data_packet s w p a with
                 | Raise _ => (s, w, out)
                 | Ok (s', w', out') => (s', w', out ++ out')
                 end) arrivals (self, w, out) in
  reassembly_inv chunks self' (deliveries out').
Proof.
  revert self w out. induction arrivals as [|[p a] arrivals IH];
    intros self w out Hinv HF.
  - cbn. exact Hinv.
  - apply Forall_cons in HF as [Hp HF]. cbn [fst] in Hp. cbn [fold_left].
    destruct (is_corrupt_dec p) as [Hok|Hbad].
    + pose proof (_handle_data_packet_inv chunks self w p a _ Hinv (Hp Hok)) as H.
      destruct (_handle_data_packet self w p a) as [[[s' w'] evs]|].
      * apply IH; [|exact HF]. unfold deliveries. rewrite omap_app. exact H.
      * apply IH; assumption.
    + pose proof (_handle_data_packet_rejected self w p a Hbad) as H.
      destruct (_handle_data_packet self w p a) as [[[s' w'] evs]|].
      * injection H as -> -> ->. rewrite app_nil_r. apply IH; assumption.
      * apply IH; assumption.
Qed.

Lemma handle_all_arrived arrivals self w out :
  let '(self', _, _) :=
    fold_left (fun '(s, w, out) '(p, a) =>
                 match _handle_data_packet s w p a with
                 | Raise _ => (s, w, out)
                 | Ok (s', w', out') => (s', w', out ++ out')
                 end) arrivals (self, w, out) in
  forall s, s < expected_seq_num self \/ is_Some (receive_buffer self !! s)
            \/ (exists pa, pa ∈ arrivals /\ is_corrupt pa.1 = Ok false
                            /\ seq_num pa.1 = s) ->
            s < expected_seq_num self' \/ is_Some (receive_buffer self' !! s).
Proof.
  revert self w out. induction arrivals as [|[p a] arrivals IH]; intros self w out.
  - cbn. intros s [Hs|[Hs|(pa & Hin & _)]]; [tauto | tauto|].
    apply elem_of_nil in Hin. destruct Hin.
  - cbn [fold_left].
    destruct (is_corrupt_dec p) as [Hok|Hbad].
    + destruct (_handle_data_packet_intact self w p a Hok)
        as (s1 & w1 & evs & Heq & Hstep).
      rewrite Heq.
      specialize (IH s1 w1 (out ++ evs)).
      destruct (fold_left _ arrivals _) as [[s2 w2] out2].
      intros s Hs. apply IH.
      destruct Hs as [Hs|[Hs|(pa & Hin & Hc & Hseq)]].
      * destruct (Hstep s (or_introl Hs)); tauto.
      * destruct (Hstep s (or_intror (or_introl Hs))); tauto.
      * apply elem_of_cons in Hin as [->|Hin].
        -- cbn [fst] in Hseq. subst s.
           destruct (Hstep (seq_num p) (or_intror (or_intror eq_refl))); tauto.
        -- right. right. eauto.
    + pose proof (_handle_data_packet_rejected self w p a Hbad) as H.
      assert (Hgo : forall out1,
                 let '(self', _, _) :=
                   fold_left (fun '(s, w, out) '(p, a) =>
                      match _handle_data_packet s w p a with
                      | Raise _ => (s, w, out)
                      | Ok (s', w', out') => (s', w', out ++ out')
                      end) arrivals (self, w, out1) in
                 forall s, s < expected_seq_num self
                           \/ is_Some (receive_buffer self !! s)
                           \/ (exists pa, pa ∈ (p, a) :: arrivals
                                           /\ is_corrupt pa.1 = Ok false
                                           /\ seq_num pa.1 = s) ->
                           s < expected_seq_num self'
                           \/ is_Some (receive_buffer self' !! s)).
      { intros out1. specialize (IH self w out1).
        destruct (fold_left _ arrivals _) as [[s2 w2] out2].
        intros s Hs. apply IH.
        destruct Hs as [Hs|[Hs|(pa & Hin & Hc & Hseq)]]; [tauto | tauto|].
        apply elem_of_cons in Hin as [->|Hin]; [cbn [fst] in Hc; contradiction|].
        right. right. eauto. }
      destruct (_handle_data_packet self w p a) as [[[s' w'] evs]|].
      * injection H as -> -> ->. apply Hgo.
      * apply Hgo.
Qed.

(** X13: suppose every packet that passes the checksum test is a packet of
    the transfer, and every chunk of the input has arrived intact at least
    once.  Then, in whatever order the packets arrive, with whatever
    repetitions and with whatever packets in between that fail the checksum
    test or cannot be checked, the receiver has delivered all chunks: the
    delivery queue holds the chunks in order, their concatenation is the
    sender's input, the expected sequence number is the number of chunks and
    the buffer is empty again. *)
Theorem all_chunks_arrived_all_delivered
    (W mps : Z) (input : bytes) (chunks : list bytes) (w : World)
    (arrivals : list (Packet * addr)) :
  0 < mps ->
  split_chunks mps input = Ok chunks ->
  Forall (fun pa => is_corrupt pa.1 = Ok false -> from_sender chunks pa.1) arrivals ->
  (forall i, (i < length chunks)%nat ->
             exists pa, pa ∈ arrivals /\ is_corrupt pa.1 = Ok false /\
                        seq_num pa.1 = Z.of_nat i) ->
  let '(self, _, _) := handle_all (RDTReceiver_init W) w arrivals in
  expected_seq_num self = Z.of_nat (length chunks) /\
  data_queue self = chunks /\
  concat (data_queue self) = input /\
  receive_buffer self = ∅.
Proof.
  intros Hmps Hsplit HF Hall. unfold handle_all.
  assert (H0 : reassembly_inv chunks (RDTReceiver_init W) (deliveries [])).
  { unfold reassembly_inv. cbn [RDTReceiver_init expected_seq_num data_queue
      receive_buffer deliveries omap].
    split; [lia|]. split; [cbn; lia|]. split; [reflexivity|]. split; [reflexivity|].
    intros k pkt Hk. rewrite lookup_empty in Hk. discriminate. }
  pose proof (handle_all_checked_inv chunks arrivals _ w [] H0 HF) as Hre.
  pose proof (handle_all_receiver_inv arrivals _ w [] (receiver_inv_init W)) as Hrc.
  pose proof (handle_all_arrived arrivals (RDTReceiver_init W) w []) as Hseen.
  destruct (fold_left _ arrivals _) as [[self w'] evs].
  destruct Hre as (He & Hlen & _ & Hq & Hbuf).
  destruct Hrc as ((_ & Hkeys & _) & _).
  assert (Hexp : Z.to_nat (expected_seq_num self) = length chunks).
  { destruct (decide (Z.to_nat (expected_seq_num self) < length chunks)%nat) as [Hlt|]; [|lia].
    exfalso. destruct (Hall _ Hlt) as (pa & Hin & Hc & Hseq).
    rewrite Z2Nat.id in Hseq by lia.
    destruct (Hseen (expected_seq_num self)) as [Hs|Hs]; [right; right; eauto|lia|].
    specialize (Hkeys _ Hs). lia. }
  split; [lia|]. rewrite Hq, Hexp, firstn_all.
  split; [reflexivity|]. split.
  { destruct (split_chunks_concat _ _ _ Hsplit) as [Hnil|Hc]; [|exact Hc].
    unfold split_chunks in Hsplit.
    destruct (Z.eqb_spec mps 0); [lia|]. destruct (Z.ltb_spec mps 0); [lia|].
    injection Hsplit as <-. apply concat_groups; lia. }
  apply map_empty. intros k. destruct (receive_buffer self !! k) as [pkt|] eqn:E; [|reflexivity].
  exfalso. destruct (Hbuf _ _ E) as [Hk Hchunk].
  apply lookup_lt_Some in Hchunk. specialize (Hkeys k (mk_is_Some _ _ E)). lia.
Qed.

Lemma all_chunks_arrived_all_delivered_witness :
  let chunks := [ascii_bytes "ABCD"; ascii_bytes "EFGH"; ascii_bytes "IJ"] in
  0 < 4 /\
  split_chunks 4 scenario_input = Ok chunks /\
  Forall (fun pa => is_corrupt pa.1 = Ok false -> from_sender chunks pa.1) arrivals_with_damage /\
  (forall i, (i < length chunks)%nat ->
             exists pa, pa ∈ arrivals_with_damage /\ is_corrupt pa.1 = Ok false /\
                        seq_num pa.1 = Z.of_nat i) /\
  map (fun pa => is_corrupt pa.1) arrivals_with_damage
    = [Ok true; Ok false; Raise StructError; Ok false; Ok false; Ok false] /\
  (let '(self, _, _) := handle_all (RDTReceiver_init 5) quiet_world arrivals_with_damage in
   expected_seq_num self = Z.of_nat (length chunks) /\
   data_queue self = chunks /\
   concat (data_queue self) = scenario_input /\
   receive_buffer self = ∅).
Proof.
  cbn zeta.
  set (chunks := [ascii_bytes "ABCD"; ascii_bytes "EFGH"; ascii_bytes "IJ"]).
  assert (H0 : 0 < 4) by reflexivity.
  assert (H1 : split_chunks 4 scenario_input = Ok chunks) by (vm_compute; reflexivity).
  assert (Hc : map (fun pa => is_corrupt pa.1) arrivals_with_damage
               = [Ok true; Ok false; Raise StructError; Ok false; Ok false; Ok false])
    by (vm_compute; reflexivity).
  assert (H2 : Forall (fun pa => is_corrupt pa.1 = Ok false -> from_sender chunks pa.1) arrivals_with_damage).
  { unfold arrivals_with_damage.
    repeat first [apply List.Forall_nil | apply List.Forall_cons];
      cbn [fst];
      first [ intros _; split; [vm_compute; discriminate | vm_compute; reflexivity]
            | intros Hk; vm_compute in Hk; discriminate Hk ]. }
  assert (H3 : forall i, (i < length chunks)%nat ->
                 exists pa, pa ∈ arrivals_with_damage /\ is_corrupt pa.1 = Ok false /\
                            seq_num pa.1 = Z.of_nat i).
  { intros i Hi. destruct i as [|[|[|i]]]; [| | |cbn in Hi; lia].
    - exists (sealed (data_packet 0 (ascii_bytes "ABCD")), localhost).
      split; [|split; vm_compute; reflexivity]. unfold arrivals_with_damage.
      rewrite !elem_of_cons. tauto.
    - exists (sealed (data_packet 1 (ascii_bytes "EFGH")), localhost).
      split; [|split; vm_compute; reflexivity]. unfold arrivals_with_damage.
      rewrite !elem_of_cons. tauto.
    - exists (sealed (data_packet 2 (ascii_bytes "IJ")), localhost).
      split; [|split; vm_compute; reflexivity]. unfold arrivals_with_damage.
      rewrite !elem_of_cons. tauto. }
  split; [exact H0|]. split; [exact H1|]. split; [exact H2|]. split; [exact H3|].
  split; [exact Hc|].
  exact (all_chunks_arrived_all_delivered 5 4 scenario_input chunks quiet_world
           arrivals_with_damage H0 H1 H2 H3).
Defined.

(** ** Acknowledgments on the wire *)

(** X14: when the acknowledgment number is below 2^32, the receiver's window
    size fits 16 bits and the socket accepts the datagram, [_send_ack] sends
    15 bytes from which [deserialize] rebuilds an ACK packet (not a data
    packet) with that number and window, no payload and a valid checksum; a
    sender that handles this packet moves [base] to the number plus one unless
    it is already beyond. *)
Theorem ack_datagram_decodes
    (self : RDTReceiver) (w : World) (a : Z) (dest : addr) (reader : pyval)
    (sender : RDTSender) :
  0 <= a < 2 ^ 32 ->
  0 <= r_window_size self < 2 ^ 16 ->
  sendto_fails w (sendto_calls w) = false ->
  exists self' w' raw q,
    _send_ack self w a dest = (self', w', [AckSent a dest]) /\
    wire w' = wire w ++ [(raw, dest)] /\
    length raw = 15%nat /\
    acks_sent self' = acks_sent self + 1 /\
    deserialize reader VClassPacket (VBytes raw) = Ok (VPacket q) /\
    is_ack q = true /\ is_data q = false /\
    ack_num q = a /\ window_size q = r_window_size self /\ data q = [] /\
    is_corrupt q = Ok false /\
    base (_handle_ack sender q) = Z.max (base sender) (a + 1).
Proof.
  intros Ha HW Hsock. unfold _send_ack.
  replace (if a <? 0 then 0 else a) with a by (destruct (Z.ltb_spec a 0); lia).
  unfold create_ack_packet, Packet_init. cbn [payload_of rbind length].
  set (p0 := mkPacket 0 a PacketType.ACK (r_window_size self) [] (Z.of_nat 0) 0).
  assert (Hwf : well_formed p0).
  { subst p0. unfold PacketType.ACK.
    constructor; cbn [seq_num ack_num flags window_size data data_length length];
      try reflexivity; lia. }
  destruct (calculate_checksum_total p0 Hwf) as [c Hc].
  pose proof (checksum_fits p0 c Hc) as Hcf.
  rewrite (serialize_well_formed p0 c Hwf Hc).
  unfold sock_sendto. rewrite Hsock.
  set (hdr := packed HEADER_FORMAT _).
  assert (Hlen : length hdr = 15%nat).
  { pose proof (length_packed HEADER_FORMAT
      [seq_num p0; ack_num p0; flags p0; window_size p0; data_length p0; c] eq_refl) as H.
    fold hdr in H. change (calcsize HEADER_FORMAT) with 15 in H. lia. }
  eexists _, _, (hdr ++ data p0), (set_checksum p0 c).
  split; [reflexivity|]. split; [reflexivity|].
  split; [rewrite length_app, Hlen; reflexivity|].
  split; [reflexivity|]. split.
  { rewrite deserialize_bytes.
    replace (Z.of_nat (length (hdr ++ data p0)) <? HEADER_SIZE) with false
      by (symmetry; apply Z.ltb_ge; rewrite length_app, Hlen; unfold HEADER_SIZE; cbn; lia).
    subst hdr. rewrite parsed_serialized by assumption. reflexivity. }
  split; [reflexivity|]. split; [reflexivity|]. split; [reflexivity|].
  split; [reflexivity|]. split; [reflexivity|]. split.
  { unfold is_corrupt. rewrite calculate_checksum_set, Hc. cbn [rbind set_checksum checksum].
    rewrite Z.eqb_refl. reflexivity. }
  pose proof (_handle_ack_step sender (set_checksum p0 c)) as [H _]. exact H.
Qed.

Lemma ack_datagram_decodes_witness :
  0 <= 2 < 2 ^ 32 /\
  0 <= r_window_size (RDTReceiver_init 5) < 2 ^ 16 /\
  sendto_fails quiet_world (sendto_calls quiet_world) = false /\
  exists self' w' raw q,
    _send_ack (RDTReceiver_init 5) quiet_world 2 localhost
      = (self', w', [AckSent 2 localhost]) /\
    wire w' = wire quiet_world ++ [(raw, localhost)] /\
    length raw = 15%nat /\
    acks_sent self' = acks_sent (RDTReceiver_init 5) + 1 /\
    deserialize VNone VClassPacket (VBytes raw) = Ok (VPacket q) /\
    is_ack q = true /\ is_data q = false /\
    ack_num q = 2 /\ window_size q = r_window_size (RDTReceiver_init 5) /\
    data q = [] /\
    is_corrupt q = Ok false /\
    base (_handle_ack overdue_sender q) = Z.max (base overdue_sender) (2 + 1).
Proof.
  assert (H1 : 0 <= 2 < 2 ^ 32) by (split; [discriminate | reflexivity]).
  assert (H2 : 0 <= r_window_size (RDTReceiver_init 5) < 2 ^ 16)
    by (split; [discriminate | reflexivity]).
  assert (H3 : sendto_fails quiet_world (sendto_calls quiet_world) = false)
    by reflexivity.
  split; [exact H1|]. split; [exact H2|]. split; [exact H3|].
  exact (ack_datagram_decodes (RDTReceiver_init 5) quiet_world 2 localhost VNone
           overdue_sender H1 H2 H3).
Defined.

(** X15: a receiver whose window size does not fit 16 bits, or an
    acknowledgment number of 2^32 or more, makes [_send_ack] fail inside its
    own [try]: packing raises, the handler swallows it, and nothing is sent or
    counted, the socket not even being called. *)
Theorem unpackable_ack_is_dropped
    (self : RDTReceiver) (w : World) (a : Z) (dest : addr) :
  ~ (0 <= r_window_size self < 2 ^ 16) \/ 2 ^ 32 <= a ->
  _send_ack self w a dest = (self, w, []).
Proof.
  intros Hbad. unfold _send_ack.
  set (a' := if a <? 0 then 0 else a).
  assert (Ha' : 2 ^ 32 <= a -> 2 ^ 32 <= a')
    by (subst a'; destruct (Z.ltb_spec a 0); lia).
  unfold create_ack_packet, Packet_init. cbn [payload_of rbind length].
  set (p0 := mkPacket 0 a' PacketType.ACK (r_window_size self) [] (Z.of_nat 0) 0).
  destruct (serialize_cases p0) as [[Hfits _]|(_ & _ & -> & _)]; [|reflexivity].
  exfalso. destruct Hfits as (_ & Hack & _ & Hwin & _). unfold fits in *.
  cbn [ack_num window_size p0] in *.
  change (256 ^ Z.of_nat 4) with (2 ^ 32) in *.
  change (256 ^ Z.of_nat 2) with (2 ^ 16) in *.
  destruct Hbad as [Hbad | Hbad]; [apply Hbad; exact Hwin | specialize (Ha' Hbad); lia].
Qed.

Lemma unpackable_ack_is_dropped_witness :
  (~ (0 <= r_window_size (RDTReceiver_init 70000) < 2 ^ 16) \/ 2 ^ 32 <= 0) /\
  _send_ack (RDTReceiver_init 70000) quiet_world 0 localhost
  = (RDTReceiver_init 70000, quiet_world, []).
Proof.
  assert (H : ~ (0 <= r_window_size (RDTReceiver_init 70000) < 2 ^ 16) \/ 2 ^ 32 <= 0).
  { left. intros [_ H]. vm_compute in H. discriminate. }
  split; [exact H|].
  exact (unpackable_ack_is_dropped (RDTReceiver_init 70000) quiet_world 0 localhost H).
Defined.

(** ** What receive_all_data hands back *)

(** When the loop returns, it returns at one pass: the passes before it leave
    the loop running, and what is returned is the accumulator they built. *)
Lemma rad_loop_exit_pass timeout st polls out why :
  rad_loop timeout st polls = Return_ out why ->
  exists n st',
    (n < length polls)%nat /\
    rad_loop timeout st (take n polls) = Looping st' /\
    rad_loop timeout st (take (S n) polls) = Return_ out why /\
    out = all_data st' /\
    (why = IdleBreak ->
     exists p, polls !! n = Some p /\ truthy (got p) = None).
Proof.
  revert st. induction polls as [|p polls IH]; intros st; [discriminate|].
  cbn [rad_loop].
  destruct (t_test p - last_activity_time st <? timeout) eqn:Etest.
  2:{ intros [= <- <-]. exists 0%nat, st. cbn [take length rad_loop]. rewrite Etest.
      split; [lia|]. split; [reflexivity|]. split; [reflexivity|].
      split; [reflexivity | discriminate]. }
  destruct (truthy (got p)) as [d|] eqn:Et.
  - intros H. destruct (IH _ H) as (n & st' & Hn & Hpre & Hexit & Hout & Hidle).
    exists (S n), st'. cbn [length]. split; [lia|].
    change (take (S n) (p :: polls)) with (p :: take n polls).
    change (take (S (S n)) (p :: polls)) with (p :: take (S n) polls).
    cbn [rad_loop]. rewrite Etest, Et.
    split; [exact Hpre|]. split; [exact Hexit|]. split; [exact Hout|].
    exact Hidle.
  - match goal with |- context [if ?c then Return_ _ _ else _] => destruct c eqn:Ec end.
    + intros [= <- <-]. exists 0%nat, st. cbn [take length rad_loop].
      rewrite Etest, Et, Ec.
      split; [lia|]. split; [reflexivity|]. split; [reflexivity|].
      split; [destruct (seen_before p <? seen_after p); reflexivity|].
      intros _. exists p. split; [reflexivity | exact Et].
    + intros H. destruct (IH _ H) as (n & st' & Hn & Hpre & Hexit & Hout & Hidle).
      exists (S n), st'. cbn [length]. split; [lia|].
      change (take (S n) (p :: polls)) with (p :: take n polls).
      change (take (S (S n)) (p :: polls)) with (p :: take (S n) polls).
      cbn [rad_loop]. rewrite Etest, Et, Ec.
      split; [exact Hpre|]. split; [exact Hexit|]. split; [exact Hout|].
      exact Hidle.
Qed.

(** X16: when [receive_all_data] returns, there is one pass at which it does
    so: the passes before it leave the loop running, that pass ends it, and
    the bytes returned are the accumulator at that point, which is the
    concatenation, in order, of the non-empty chunks those earlier passes took
    off the queue: nothing is lost, repeated or reordered on the way to the
    caller, and an empty chunk or an empty queue adds nothing.  The exit pass
    adds nothing: at the idle break it took no chunk, at the loop test it
    takes none.  While the call has not returned, its accumulator holds all
    chunks taken so far. *)
Theorem receive_all_data_output (timeout t0 : time) (polls : list poll) :
  match receive_all_data timeout t0 polls with
  | Return_ out why =>
      exists n st,
        (n < length polls)%nat /\
        receive_all_data timeout t0 (take n polls) = Looping st /\
        receive_all_data timeout t0 (take (S n) polls) = Return_ out why /\
        out = all_data st /\
        out = dequeued (take n polls) /\
        (why = IdleBreak -> out = dequeued (take (S n) polls))
  | Looping st => all_data st = dequeued polls
  end.
Proof.
  unfold receive_all_data.
  destruct (rad_loop timeout (mkRad [] t0 0) polls) as [st|out why] eqn:E.
  - apply rad_loop_looping in E as [E _]. exact E.
  - destruct (rad_loop_exit_pass _ _ _ _ _ E)
      as (n & st' & Hn & Hpre & Hexit & Hout & Hidle).
    pose proof (rad_loop_looping _ _ _ _ Hpre) as [Hall _]. cbn [all_data app] in Hall.
    exists n, st'. split; [exact Hn|]. split; [exact Hpre|]. split; [exact Hexit|].
    split; [exact Hout|]. split; [congruence|].
    intros Hw. destruct (Hidle Hw) as (p & Hp & Ht).
    rewrite (take_S_r _ _ _ Hp), dequeued_app, (dequeued_cons p []), Ht.
    change (dequeued []) with (@nil byte). rewrite app_nil_r. congruence.
Qed.
